(** * Class-diagram evaluation (mainv2.0.py): signature normalisation,
      relationship extraction, matching and scoring.

    A shallow embedding of the evaluation script.  Python [str] values are
    Rocq strings whose characters are the code points below 256; Python sets
    of canonical tuples are [gset]s, the name-keyed element dictionaries are
    [gmap]s, and Python floats are the kernel's binary64 floats. *)

From Stdlib Require Import ZArith Ascii Floats.
From Stdlib Require String.
From stdpp Require Import gmap strings list fin_maps sorting.

Local Open Scope Z_scope.

(** ** Python string primitives *)

Module PyStr.

(** [str.isspace] on one character (code points below 256): TAB..CR, FS..US,
    SPACE, NEL and NBSP.  [str.strip()] removes exactly these. *)
Definition isspace (c : ascii) : bool :=
  let n := nat_of_ascii c in
  ((9 <=? n) && (n <=? 13) || (28 <=? n) && (n <=? 32)
   || (n =? 133) || (n =? 160))%nat.

Fixpoint lstrip (s : string) : string :=
  match s with
  | EmptyString => EmptyString
  | String c s' => if isspace c then lstrip s' else s
  end.

Fixpoint rstrip (s : string) : string :=
  match s with
  | EmptyString => EmptyString
  | String c s' =>
      match rstrip s' with
      | EmptyString => if isspace c then EmptyString else String c EmptyString
      | r => String c r
      end
  end.

(** [s.strip()] *)
Definition strip (s : string) : string := rstrip (lstrip s).

(** [c in s] for a one-character [c] *)
Fixpoint contains (c : ascii) (s : string) : bool :=
  match s with
  | EmptyString => false
  | String x s' => if Ascii.eqb x c then true else contains c s'
  end.

(** [s.count(c)] *)
Fixpoint count (c : ascii) (s : string) : nat :=
  match s with
  | EmptyString => O
  | String x s' => ((if Ascii.eqb x c then 1 else 0) + count c s')%nat
  end.

(** [s.rfind(c)]: the highest index of [c], or [-1]. *)
Fixpoint rfind (c : ascii) (s : string) : Z :=
  match s with
  | EmptyString => -1
  | String x s' =>
      let r := rfind c s' in
      if 0 <=? r then r + 1 else if Ascii.eqb x c then 0 else -1
  end.

(** [s.endswith(c)] *)
Fixpoint endswith (c : ascii) (s : string) : bool :=
  match s with
  | EmptyString => false
  | String x EmptyString => Ascii.eqb x c
  | String _ s' => endswith c s'
  end.

Fixpoint take (n : nat) (s : string) : string :=
  match n, s with
  | S n', String c s' => String c (take n' s')
  | _, _ => EmptyString
  end.

Fixpoint drop (n : nat) (s : string) : string :=
  match n, s with
  | S n', String _ s' => drop n' s'
  | _, _ => s
  end.

(** Python's treatment of a slice bound: a negative bound counts from the
    end, and every bound is clamped to [0 .. len]. *)
Definition clamp (len i : Z) : Z :=
  if i <? 0 then Z.max 0 (len + i) else Z.min i len.

(** [s[a:b]] *)
Definition slice (s : string) (a b : Z) : string :=
  let len := Z.of_nat (String.length s) in
  let a' := clamp len a in
  let b' := clamp len b in
  take (Z.to_nat (b' - a')) (drop (Z.to_nat a') s).

(** [s[a:]] *)
Definition slice_from (s : string) (a : Z) : string :=
  drop (Z.to_nat (clamp (Z.of_nat (String.length s)) a)) s.

(** [s[:b]] *)
Definition slice_to (s : string) (b : Z) : string :=
  take (Z.to_nat (clamp (Z.of_nat (String.length s)) b)) s.

(** [s.split(c, 1)]: the text before the first [c], and the text after it
    when [c] occurs (a two-element list in Python, a one-element list
    otherwise). *)
Fixpoint split1 (c : ascii) (s : string) : string * option string :=
  match s with
  | EmptyString => (EmptyString, None)
  | String x s' =>
      if Ascii.eqb x c then (EmptyString, Some s')
      else let '(h, t) := split1 c s' in (String x h, t)
  end.

(** [s.split(c)]: always at least one piece. *)
Fixpoint split (c : ascii) (s : string) : list string :=
  match s with
  | EmptyString => [EmptyString]
  | String x s' =>
      if Ascii.eqb x c then EmptyString :: split c s'
      else match split c s' with
           | h :: t => String x h :: t
           | [] => [String x EmptyString]
           end
  end.

(** [s.startswith(('+', '-', '#', '~'))] *)
Definition starts_with_visibility (s : string) : bool :=
  match s with
  | String c _ =>
      Ascii.eqb c "+" || Ascii.eqb c "-" || Ascii.eqb c "#" || Ascii.eqb c "~"
  | EmptyString => false
  end.

End PyStr.

Import PyStr.

(** ** Signature normaliser *)

Definition normalize_multiplicity (mult : string) : string :=
  if String.eqb mult "" then "1..1"
  else
    let mult := strip mult in
    if String.eqb mult "1" then "1..1"
    else if String.eqb mult "*" || String.eqb mult "..*" then "0..*"
    else if String.eqb mult "1.." then "1..*"
    else mult.

(** The leading visibility marker is consumed when present; [+] otherwise. *)
Definition take_visibility (s : string) : string * string :=
  if starts_with_visibility s then (take 1 s, strip (drop 1 s)) else ("+", s).

Definition attribute : Type := string * string * string * string.

Definition parse_attribute (attr : string) : attribute :=
  let attr := strip attr in
  let '(vis, attr) := take_visibility attr in
  let '(mult, attr) :=
    if contains "[" attr && endswith "]" attr then
      let idx := rfind "[" attr in
      let mult_part := slice attr (idx + 1) (-1) in
      (normalize_multiplicity mult_part, strip (slice_to attr idx))
    else ("1", attr) in
  match split1 ":" attr with
  | (name, Some typ) => (vis, strip name, strip typ, mult)
  | (_, None) => (vis, attr, "", mult)
  end.

Definition operation : Type := string * string * list (string * string) * string.

(** One piece of the comma-separated parameter list; empty pieces are
    skipped. *)
Definition parse_param (param : string) : list (string * string) :=
  let param := strip param in
  if String.eqb param "" then []
  else match split1 ":" param with
       | (p_name, Some p_type) => [(strip p_name, strip p_type)]
       | (_, None) => [(param, "")]
       end.

Definition parse_operation (op : string) : operation :=
  let op := strip op in
  let '(vis, op) := take_visibility op in
  let '(ret_type, op) :=
    if contains ":" op && (count "(" op =? count ")" op)%nat then
      let last_colon := rfind ":" op in
      let last_paren := rfind ")" op in
      if last_paren <? last_colon
      then (strip (slice_from op (last_colon + 1)), strip (slice_to op last_colon))
      else ("void", op)
    else ("void", op) in
  if negb (contains "(" op) then (vis, op, [], ret_type)
  else if negb (contains ")" op) then (vis, op, [], ret_type)
  else
    match split1 "(" op with
    | (name_part, Some rest) =>
        let name := strip name_part in
        let params_str := fst (split1 ")" rest) in
        let params_list :=
          if String.eqb (strip params_str) "" then []
          else concat (map parse_param (split "," params_str)) in
        (vis, name, params_list, ret_type)
    | (_, None) => (vis, op, [], ret_type)
    end.

(** ** Exceptions *)

Inductive exn : Type :=
| KeyError (key : string)
| ZeroDivisionError.

Inductive result (A : Type) : Type :=
| Ok (a : A)
| Raise (e : exn).
Arguments Ok {A} a.
Arguments Raise {A} e.

Global Instance result_ret : MRet result := λ A, Ok.

Global Instance result_bind : MBind result := λ A B k r,
  match r with
  | Ok a => k a
  | Raise e => Raise e
  end.

(** ** Relationship extractor *)

(** A relationship record: a JSON object whose field values are strings. *)
Abbreviation record := (gmap string string).

Definition assoc_key : Type := (string * string) * string * string.

(** [assoc['source']] raises [KeyError] on a missing field. *)
Definition getitem (assoc : record) (key : string) : result string :=
  match assoc !! key with
  | Some v => Ok v
  | None => Raise (KeyError key)
  end.

Definition parse_association (assoc : record) : result assoc_key :=
  src ← getitem assoc "source";
  tgt ← getitem assoc "target";
  let mult_src := normalize_multiplicity (default "" (assoc !! "multiplicity_source")) in
  let mult_tgt := normalize_multiplicity (default "" (assoc !! "multiplicity_target")) in
  let key :=
    if bool_decide (assoc !! "direction" = Some "bidirectional")
    then if String.ltb tgt src then (tgt, src) else (src, tgt)
    else (src, tgt) in
  Ok (key, mult_tgt, mult_src).

Inductive rel_type : Type :=
| association | composition | aggregation | dependency | inheritance | realization.

Definition rel_types : list rel_type :=
  [association; composition; aggregation; dependency; inheritance; realization].

(** The tuples stored in the relationship sets, by shape:
    [((a, b), m1, m2)], [(whole, part, mw, mp)] and [(x, y)]. *)
Inductive rel_key : Type :=
| AssocKey (k : assoc_key)
| WholePartKey (k : string * string * string * string)
| PairKey (k : string * string).

Global Instance rel_type_eq_dec : EqDecision rel_type.
Proof. solve_decision. Defined.

Global Instance rel_key_eq_dec : EqDecision rel_key.
Proof. solve_decision. Defined.

Global Instance rel_key_countable : Countable rel_key.
Proof.
  refine (inj_countable'
    (λ k, match k with
          | AssocKey a => inl a
          | WholePartKey w => inr (inl w)
          | PairKey p => inr (inr p)
          end)
    (λ s, match s with
          | inl a => AssocKey a
          | inr (inl w) => WholePartKey w
          | inr (inr p) => PairKey p
          end) _).
  by intros [].
Defined.

(** What is written to the error stream. *)
Inductive warning : Type :=
| SkippingMalformed (rt : rel_type) (rel : record)
| ErrorParsing (rt : rel_type) (idx : nat) (e : exn) (rel : record).

(** The two fields a record of each type must carry. *)
Definition required_fields (rt : rel_type) : string * string :=
  match rt with
  | association => ("source", "target")
  | composition | aggregation => ("whole", "part")
  | dependency => ("dependent", "supplier")
  | inheritance => ("parent", "child")
  | realization => ("interface", "implementation")
  end.

(** The body of the [try] for one record: [Ok (Some key)] adds the key,
    [Ok None] is the "missing field" branch that warns and continues, and
    [Raise e] is an exception for the [except] clause. *)
Definition record_key (rt : rel_type) (rel : record) : result (option rel_key) :=
  match rt with
  | association =>
      match rel !! "source", rel !! "target" with
      | Some _, Some _ => key ← parse_association rel; Ok (Some (AssocKey key))
      | _, _ => Ok None
      end
  | composition | aggregation =>
      match rel !! "whole", rel !! "part" with
      | Some whole, Some part =>
          Ok (Some (WholePartKey
            (whole, part,
             normalize_multiplicity (default "1" (rel !! "multiplicity_whole")),
             normalize_multiplicity (default "1" (rel !! "multiplicity_part")))))
      | _, _ => Ok None
      end
  | dependency =>
      match rel !! "dependent", rel !! "supplier" with
      | Some dep, Some sup => Ok (Some (PairKey (dep, sup)))
      | _, _ => Ok None
      end
  | inheritance =>
      match rel !! "parent", rel !! "child" with
      | Some parent, Some child => Ok (Some (PairKey (parent, child)))
      | _, _ => Ok None
      end
  | realization =>
      match rel !! "interface", rel !! "implementation" with
      | Some interface, Some impl => Ok (Some (PairKey (interface, impl)))
      | _, _ => Ok None
      end
  end.

(** The loop over [enumerate(rel_list)], from index [idx] on: the result set
    and the warnings printed, in order. *)
Fixpoint process_from (idx : nat) (rel_list : list record) (rt : rel_type)
    (result : gset rel_key) : gset rel_key * list warning :=
  match rel_list with
  | [] => (result, [])
  | rel :: rest =>
      match record_key rt rel with
      | Ok (Some key) => process_from (S idx) rest rt ({[ key ]} ∪ result)
      | Ok None =>
          let '(res, ws) := process_from (S idx) rest rt result in
          (res, SkippingMalformed rt rel :: ws)
      | Raise e =>
          let '(res, ws) := process_from (S idx) rest rt result in
          (res, ErrorParsing rt idx e rel :: ws)
      end
  end.

Definition process_relationships (rel_list : list record) (rt : rel_type)
    : gset rel_key * list warning :=
  process_from 0 rel_list rt ∅.

(** ** Documents and element universes *)

Record class_decl : Type := {
  cls_name : string;
  cls_attributes : list string;
  cls_operations : list string
}.

Record enum_decl : Type := {
  enum_name : string;
  enum_literals : list string
}.

(** An input document; an absent list is the empty list. *)
Record document : Type := {
  classes : list class_decl;
  enumerations : list enum_decl;
  relationships : rel_type → list record
}.

Inductive element_type : Type := TClass | TEnum.

Record element : Type := {
  type : element_type;
  attrs : gset attribute;
  ops : gset operation
}.

Definition class_element (cls : class_decl) : element :=
  {| type := TClass;
     attrs := list_to_set (map parse_attribute (cls_attributes cls));
     ops := list_to_set (map parse_operation (cls_operations cls)) |}.

Definition enum_element (enum : enum_decl) : element :=
  {| type := TEnum;
     attrs := list_to_set (map (λ lit, ("+", lit, "", "1")) (enum_literals enum));
     ops := ∅ |}.

Definition add_class (elems : gmap string element) (cls : class_decl)
    : gmap string element :=
  <[cls_name cls := class_element cls]> elems.

Definition add_enum (elems : gmap string element) (enum : enum_decl)
    : gmap string element :=
  <[enum_name enum := enum_element enum]> elems.

(** The dictionary built for one side: the loop over the classes, then the
    loop over the enumerations, both assigning by name. *)
Definition load_elements (data : document) : gmap string element :=
  fold_left add_enum (enumerations data) (fold_left add_class (classes data) ∅).

Definition same_content (t p : element) : bool :=
  bool_decide (attrs t = attrs p) && bool_decide (ops t = ops p).

(** The loop [for name in true_elements] that fills [matched_classes]. *)
Definition match_step (pred_elements : gmap string element)
    (matched : gset string) (entry : string * element) : gset string :=
  match pred_elements !! entry.1 with
  | Some p => if same_content entry.2 p then {[ entry.1 ]} ∪ matched else matched
  | None => matched
  end.

Definition match_elements (true_elements pred_elements : gmap string element)
    : gset string :=
  fold_left (match_step pred_elements) (map_to_list true_elements) ∅.

(** [sorted(names)] for a set of strings. *)
Definition sorted (names : gset string) : list string :=
  merge_sort String.le (elements names).

(** ** Metrics *)

Record metrics : Type := {
  precision : float;
  recall : float;
  f1 : float
}.

(** [len(...)] as a float operand.  For counts below 2^53 the conversion is
    exact, and Python's [int / int] is the binary64 quotient of the converted
    operands. *)
Definition float_of_count (n : nat) : float :=
  PrimFloat.of_uint63 (Uint63.of_Z (Z.of_nat n)).

(** [a / b] on two counts. *)
Definition true_div (a b : nat) : result float :=
  if (b =? 0)%nat then Raise ZeroDivisionError
  else Ok (float_of_count a / float_of_count b)%float.

(** [x / y] on two floats. *)
Definition float_div (x y : float) : result float :=
  if PrimFloat.eqb y 0 then Raise ZeroDivisionError else Ok (x / y)%float.

(** Rounding half to even of [n / d], for [d > 0]. *)
Definition div_half_even (n d : Z) : Z :=
  let q := n / d in
  let r := n mod d in
  match (2 * r ?= d) with
  | Lt => q
  | Gt => q + 1
  | Eq => if Z.even q then q else q + 1
  end.

(** The binary64 value nearest to [k / d]. *)
Definition nearest_quotient (s : bool) (k d : Z) : float :=
  match k with
  | Zpos m =>
      SF2Prim (SFdiv prec emax (S754_finite s m 0) (S754_finite false (Z.to_pos d) 0))
  | _ => SF2Prim (S754_zero s)
  end.

(** [round(x, 4)]: the exact value of [x] is rounded half to even to four
    decimal places, and the binary64 value nearest to that decimal is
    returned; zeros, infinities and NaN are returned as they are. *)
Definition round4 (x : float) : float :=
  match Prim2SF x with
  | S754_finite s m e =>
      let k :=
        if 0 <=? e then Zpos m * 10000 * 2 ^ e
        else div_half_even (Zpos m * 10000) (2 ^ (- e)) in
      nearest_quotient s k 10000
  | _ => x
  end.

(** [match_n / n if n > 0 else 0.0], the expression behind [p] and [r]. *)
Definition ratio (match_n n : nat) : result float :=
  if (0 <? n)%nat then true_div match_n n else Ok 0%float.

(** [2 * p * r / (p + r) if (p + r) > 0 else 0.0] *)
Definition harmonic (p r : float) : result float :=
  if PrimFloat.ltb 0 (p + r) then float_div (2 * p * r) (p + r) else Ok 0%float.

Definition calc_prf (true_n pred_n match_n : nat) : result metrics :=
  p ← ratio match_n pred_n;
  r ← ratio match_n true_n;
  f ← harmonic p r;
  Ok {| precision := round4 p; recall := round4 r; f1 := round4 f |}.

(** ** compute_metrics *)

Record counts : Type := {
  true_classes_and_enums : nat;
  predicted_classes_and_enums : nat;
  matched_classes_and_enums : nat;
  true_relationships : nat;
  predicted_relationships : nat;
  matched_relationships : nat
}.

Record class_matching : Type := {
  matched : list string;
  mismatched_in_ground_truth : list string;
  extra_in_prediction : list string
}.

Record report : Type := {
  class_metrics : metrics;
  relationship_metrics : metrics;
  overall_metrics : metrics;
  report_counts : counts;
  detailed_class_matching : class_matching
}.

(** The relationship sets of one side, by type. *)
Definition load_relationships (data : document) (rt : rel_type) : gset rel_key :=
  (process_relationships (relationships data rt) rt).1.

(** The warnings of the loop [for rt in rel_types]: for each type, those of
    the ground truth, then those of the prediction. *)
Definition relationship_warnings (true_data pred_data : document) : list warning :=
  concat (map (λ rt, (process_relationships (relationships true_data rt) rt).2
                     ++ (process_relationships (relationships pred_data rt) rt).2)
              rel_types).

Definition sum_list (l : list nat) : nat := foldr Nat.add 0%nat l.

(** The returned dictionary (the per-relationship listing under [detailed]
    is left out), together with what was written to the error stream. *)
Definition compute_metrics (true_data pred_data : document)
    : list warning * result report :=
  let true_elements := load_elements true_data in
  let pred_elements := load_elements pred_data in
  let matched_classes := match_elements true_elements pred_elements in
  let true_rels := load_relationships true_data in
  let pred_rels := load_relationships pred_data in
  let true_c := size true_elements in
  let pred_c := size pred_elements in
  let match_c := size matched_classes in
  let true_r := sum_list (map (λ rt, size (true_rels rt)) rel_types) in
  let pred_r := sum_list (map (λ rt, size (pred_rels rt)) rel_types) in
  let match_r := sum_list (map (λ rt, size (true_rels rt ∩ pred_rels rt)) rel_types) in
  let detailed :=
    {| matched := sorted matched_classes;
       mismatched_in_ground_truth := sorted (dom true_elements ∖ matched_classes);
       extra_in_prediction := sorted (dom pred_elements ∖ matched_classes) |} in
  (relationship_warnings true_data pred_data,
   cm ← calc_prf true_c pred_c match_c;
   rm ← calc_prf true_r pred_r match_r;
   om ← calc_prf (true_c + true_r) (pred_c + pred_r) (match_c + match_r);
   Ok {| class_metrics := cm;
         relationship_metrics := rm;
         overall_metrics := om;
         report_counts :=
           {| true_classes_and_enums := true_c;
              predicted_classes_and_enums := pred_c;
              matched_classes_and_enums := match_c;
              true_relationships := true_r;
              predicted_relationships := pred_r;
              matched_relationships := match_r |};
         detailed_class_matching := detailed |}).

(** ** Vocabulary of the statements *)

(** Every character of [s] satisfies [P]. *)
Fixpoint all_chars (P : ascii → bool) (s : string) : bool :=
  match s with
  | EmptyString => true
  | String c s' => P c && all_chars P s'
  end.

(** Characters that are neither a colon nor a parenthesis. *)
Definition plain (c : ascii) : bool :=
  negb (Ascii.eqb c ":") && negb (Ascii.eqb c "(") && negb (Ascii.eqb c ")").

(** What is left of a raw signature once the surrounding blanks and the
    visibility marker are gone. *)
Definition signature_body (s : string) : string := (take_visibility (strip s)).2.

Definition return_type (o : operation) : string := o.2.

Definition multiplicity (a : attribute) : string := a.2.

(** An association record carrying all five fields. *)
Definition assoc_record (src tgt dir mult_src mult_tgt : string) : record :=
  <["source" := src]> (<["target" := tgt]> (<["direction" := dir]>
    (<["multiplicity_source" := mult_src]>
      (<["multiplicity_target" := mult_tgt]> ∅)))).

Definition has_field (rel : record) (key : string) : bool :=
  bool_decide (is_Some (rel !! key)).

(** A record is well formed for a relationship type when it carries both
    required fields. *)
Definition well_formed (rt : rel_type) (rel : record) : bool :=
  has_field rel (required_fields rt).1 && has_field rel (required_fields rt).2.

(** The names declared by a document, classes first. *)
Definition declared_names (data : document) : list string :=
  map cls_name (classes data) ++ map enum_name (enumerations data).

Definition no_relationships : rel_type → list record := λ _, [].

(** The two documents of the end-to-end example. *)
Definition car_truth : document :=
  {| classes := [ {| cls_name := "Car"; cls_attributes := ["+speed: int"];
                     cls_operations := [] |} ];
     enumerations := [];
     relationships := no_relationships |}.

Definition car_prediction : document :=
  {| classes := [ {| cls_name := "Car"; cls_attributes := ["+speed: int[1]"];
                     cls_operations := [] |} ];
     enumerations := [];
     relationships := no_relationships |}.

(** A ground truth with one class and one dependency, against a prediction
    with the class alone. *)
Definition dependency_truth : document :=
  {| classes := [ {| cls_name := "A"; cls_attributes := []; cls_operations := [] |} ];
     enumerations := [];
     relationships := λ rt,
       match rt with
       | dependency => [ {[ "dependent" := "A"; "supplier" := "B" ]} ]
       | _ => []
       end |}.

Definition dependency_prediction : document :=
  {| classes := [ {| cls_name := "A"; cls_attributes := []; cls_operations := [] |} ];
     enumerations := [];
     relationships := no_relationships |}.

(** A document in which a class and an enumeration share the name [Color]. *)
Definition color_class : class_decl :=
  {| cls_name := "Color"; cls_attributes := ["+rgb: int"]; cls_operations := ["+mix()"] |}.

Definition color_enum : enum_decl :=
  {| enum_name := "Color"; enum_literals := ["RED"; "GREEN"] |}.

Definition color_document : document :=
  {| classes := [color_class];
     enumerations := [color_enum];
     relationships := no_relationships |}.

(** ** Vocabulary of the further properties *)

Definition attr_visibility (a : attribute) : string := a.1.1.1.
Definition attr_name (a : attribute) : string := a.1.1.2.
Definition attr_type (a : attribute) : string := a.1.2.

Definition op_visibility (o : operation) : string := o.1.1.1.
Definition op_name (o : operation) : string := o.1.1.2.
Definition op_params (o : operation) : list (string * string) := o.1.2.

(** One of the four visibility markers, as a one-character string. *)
Definition is_visibility (v : string) : bool :=
  String.eqb v "+" || String.eqb v "-" || String.eqb v "#" || String.eqb v "~".

(** A string that [strip] leaves as it is. *)
Definition trimmed (s : string) : bool := String.eqb (strip s) s.

(** The short forms that normalisation rewrites. *)
Definition is_shorthand (s : string) : bool :=
  String.eqb s "1" || String.eqb s "*" || String.eqb s "..*" || String.eqb s "1..".

(** The usual rendering of an attribute: marker, name, type, and the
    multiplicity in brackets. *)
Definition format_attribute (v : ascii) (name typ mult : string) : string :=
  String v (name +:+ ": " +:+ typ +:+ "[" +:+ mult +:+ "]").

(** The multiplicities stored in a relationship key. *)
Definition key_multiplicities (key : rel_key) : list string :=
  match key with
  | AssocKey (_, m1, m2) => [m1; m2]
  | WholePartKey (_, _, mw, mp) => [mw; mp]
  | PairKey _ => []
  end.

(** The multiplicity fields a relationship type reads, in key order. *)
Definition multiplicity_fields (rt : rel_type) : list string :=
  match rt with
  | association => ["multiplicity_target"; "multiplicity_source"]
  | composition | aggregation => ["multiplicity_whole"; "multiplicity_part"]
  | _ => []
  end.

(** The number of relationship records of a document, over the six types. *)
Definition record_count (data : document) : nat :=
  sum_list (map (λ rt, length (relationships data rt)) rel_types).

(** Two documents whose only class lists the same members in another
    order, one of them twice. *)
Definition point_class_a : class_decl :=
  {| cls_name := "Point";
     cls_attributes := ["+x: int"; "+y: int"];
     cls_operations := ["+norm(): float"] |}.

Definition point_class_b : class_decl :=
  {| cls_name := "Point";
     cls_attributes := ["+y: int"; "+x: int"; "+y: int"];
     cls_operations := ["+norm(): float"] |}.

Definition point_document (cls : class_decl) : document :=
  {| classes := [cls]; enumerations := []; relationships := no_relationships |}.

(** No character of [s] occurs in [excluded]. *)
Definition no_char_of (excluded s : string) : bool :=
  all_chars (λ c, negb (contains c excluded)) s.

(** A name as it appears in a rendered operation: trimmed, not empty, free
    of colons, parentheses and commas. *)
Definition word (s : string) : bool :=
  trimmed s && negb (String.eqb s "") && no_char_of ":()," s.

(** A parameter type: as a name, but colons are allowed. *)
Definition type_word (s : string) : bool :=
  trimmed s && negb (String.eqb s "") && no_char_of "()," s.

Definition format_param (q : string * string) : string := q.1 +:+ ": " +:+ q.2.

(** The parameters joined by a comma and a space. *)
Fixpoint join_params (ps : list (string * string)) : string :=
  match ps with
  | [] => ""
  | [q] => format_param q
  | q :: rest => format_param q +:+ ", " +:+ join_params rest
  end.

(** The usual rendering of an operation: marker, name, parameters in
    parentheses, and the return type after a colon. *)
Definition format_operation (v : ascii) (name : string)
    (params : list (string * string)) (ret : string) : string :=
  String v (name +:+ "(" +:+ join_params params +:+ "): " +:+ ret).

Definition well_formed_param (q : string * string) : bool :=
  word q.1 && type_word q.2.

(** * Properties *)

(** ** Strings *)

Section string_facts.
Implicit Types (s t w : string) (c x : ascii) (P Q : ascii → bool).

Lemma app_cons x s t : String x s +:+ t = String x (s +:+ t).
Proof. reflexivity. Qed.

Lemma app_nil_l t : "" +:+ t = t.
Proof. reflexivity. Qed.

Lemma app_assoc_str s t w : (s +:+ t) +:+ w = s +:+ (t +:+ w).
Proof. induction s as [|x s IH]; [done|]. by rewrite !app_cons, IH. Qed.

Lemma length_app_str s t :
  String.length (s +:+ t) = (String.length s + String.length t)%nat.
Proof. induction s as [|x s IH]; [done|]. rewrite app_cons. simpl. by rewrite IH. Qed.

Lemma all_chars_app P s t :
  all_chars P (s +:+ t) = all_chars P s && all_chars P t.
Proof.
  induction s as [|x s IH]; [done|].
  rewrite app_cons. simpl. rewrite IH. by rewrite andb_assoc.
Qed.

Lemma all_chars_impl P Q s :
  (∀ x, P x = true → Q x = true) → all_chars P s = true → all_chars Q s = true.
Proof.
  intros HPQ. induction s as [|x s IH]; [done|]. simpl.
  intros [Hx Hs]%andb_true_iff. rewrite (HPQ _ Hx), IH; done.
Qed.

Lemma isspace_plain x : isspace x = true → plain x = true.
Proof. destruct x as [[] [] [] [] [] [] [] []]; vm_compute; congruence. Qed.

(** *** Stripping *)

Lemma lstrip_split s : ∃ pre, all_chars isspace pre = true ∧ s = pre +:+ lstrip s.
Proof.
  induction s as [|x s (pre & Hpre & IH)]; [by exists ""|]. simpl.
  destruct (isspace x) eqn:Hx.
  - exists (String x pre). simpl. rewrite Hx, Hpre, app_cons. by rewrite <- IH.
  - by exists "".
Qed.

Lemma rstrip_split s : ∃ post, all_chars isspace post = true ∧ s = rstrip s +:+ post.
Proof.
  induction s as [|x s (post & Hpost & IH)]; [by exists ""|]. simpl.
  destruct (rstrip s) as [|y r] eqn:Hr.
  - destruct (isspace x) eqn:Hx.
    + exists (String x post). simpl. rewrite Hx, Hpost.
      split; [done|]. exact (f_equal (String x) IH).
    + exists post. split; [done|]. exact (f_equal (String x) IH).
  - exists post. by rewrite app_cons, <- IH.
Qed.

Lemma rstrip_blank w : all_chars isspace w = true → rstrip w = "".
Proof.
  induction w as [|x w IH]; [done|]. simpl.
  intros [Hx Hw]%andb_true_iff. by rewrite IH, Hx.
Qed.

Lemma lstrip_blank w : all_chars isspace w = true → lstrip w = "".
Proof.
  induction w as [|x w IH]; [done|]. simpl.
  intros [Hx Hw]%andb_true_iff. by rewrite Hx, IH.
Qed.

Lemma rstrip_app_blank s w : all_chars isspace w = true → rstrip (s +:+ w) = rstrip s.
Proof.
  intros Hw. induction s as [|x s IH]; [by apply rstrip_blank|].
  rewrite app_cons. simpl. by rewrite IH.
Qed.

Lemma strip_app_blank s w : all_chars isspace w = true → strip (s +:+ w) = strip s.
Proof.
  intros Hw. unfold strip. induction s as [|x s IH].
  - rewrite app_nil_l. by rewrite (lstrip_blank w Hw).
  - rewrite app_cons. simpl. destruct (isspace x); [done|].
    by rewrite <- app_cons, rstrip_app_blank.
Qed.

Lemma rstrip_idemp s : rstrip (rstrip s) = rstrip s.
Proof.
  induction s as [|x s IH]; [done|]. simpl.
  destruct (rstrip s) as [|y r] eqn:Hr.
  - destruct (isspace x) eqn:Hx; [done|]. simpl. by rewrite Hx.
  - simpl in *. by rewrite IH.
Qed.

Lemma lstrip_strip s : lstrip (strip s) = strip s.
Proof.
  unfold strip. induction s as [|x s IH]; [done|]. simpl.
  destruct (isspace x) eqn:Hx; [done|]. simpl.
  destruct (rstrip s); rewrite ?Hx; simpl; by rewrite Hx.
Qed.

Lemma strip_idemp s : strip (strip s) = strip s.
Proof. unfold strip at 1. rewrite lstrip_strip. apply rstrip_idemp. Qed.

Lemma strip_split s :
  ∃ pre post, all_chars isspace pre = true ∧ all_chars isspace post = true
              ∧ s = pre +:+ strip s +:+ post.
Proof.
  destruct (lstrip_split s) as (pre & Hpre & Hs).
  destruct (rstrip_split (lstrip s)) as (post & Hpost & Hl).
  exists pre, post. split_and!; [done..|]. unfold strip. by rewrite <- Hl.
Qed.

(** *** Counting and searching *)

Lemma count_app c s t : count c (s +:+ t) = (count c s + count c t)%nat.
Proof.
  induction s as [|x s IH]; [done|]. rewrite app_cons. simpl. rewrite IH. lia.
Qed.

Lemma count_absent c P s :
  (∀ x, P x = true → Ascii.eqb x c = false) →
  all_chars P s = true → count c s = 0%nat.
Proof.
  intros HP. induction s as [|x s IH]; [done|]. simpl.
  intros [Hx Hs]%andb_true_iff. by rewrite (HP _ Hx), IH.
Qed.

Lemma rfind_bounds c s : -1 ≤ rfind c s < Z.of_nat (String.length s).
Proof.
  induction s as [|x s IH]; [simpl; lia|].
  cbn [rfind String.length]. destruct (Z.leb_spec 0 (rfind c s)); [lia|].
  destruct (Ascii.eqb x c); lia.
Qed.

Lemma rfind_absent c P s :
  (∀ x, P x = true → Ascii.eqb x c = false) →
  all_chars P s = true → rfind c s = -1.
Proof.
  intros HP. induction s as [|x s IH]; [done|]. cbn [rfind all_chars].
  intros [Hx Hs]%andb_true_iff. by rewrite IH, (HP _ Hx).
Qed.

Lemma rfind_app c s t :
  rfind c (s +:+ t) =
    if 0 <=? rfind c t then Z.of_nat (String.length s) + rfind c t else rfind c s.
Proof.
  induction s as [|x s IH].
  - rewrite app_nil_l. simpl.
    destruct (Z.leb_spec 0 (rfind c t)); [lia|].
    pose proof (rfind_bounds c t). lia.
  - rewrite app_cons. cbn [rfind String.length]. rewrite IH.
    destruct (Z.leb_spec 0 (rfind c t)).
    + destruct (Z.leb_spec 0 (Z.of_nat (String.length s) + rfind c t)); lia.
    + done.
Qed.

Lemma contains_rfind c s : contains c s = (0 <=? rfind c s).
Proof.
  induction s as [|x s IH]; [done|]. cbn [contains rfind].
  pose proof (rfind_bounds c s).
  destruct (Z.leb_spec 0 (rfind c s)) as [H1|H1].
  - rewrite IH. destruct (Ascii.eqb x c); [|]; symmetry; apply Z.leb_le; lia.
  - destruct (Ascii.eqb x c); [done|]. rewrite IH. done.
Qed.

(** *** Slicing *)

Lemma drop_app_length s t n :
  drop (String.length s + n) (s +:+ t) = drop n t.
Proof. induction s as [|x s IH]; [done|]. rewrite app_cons. simpl. done. Qed.

Lemma drop_app_le s t n :
  (n ≤ String.length s)%nat → drop n (s +:+ t) = drop n s +:+ t.
Proof.
  revert n. induction s as [|x s IH]; intros [|n]; rewrite ?app_cons;
    simpl; try done; try lia.
  intros. apply IH. lia.
Qed.

Lemma slice_from_drop s a :
  0 ≤ a ≤ Z.of_nat (String.length s) → slice_from s a = drop (Z.to_nat a) s.
Proof.
  intros Ha. unfold slice_from, clamp.
  destruct (Z.ltb_spec a 0); [lia|]. by rewrite Z.min_l by lia.
Qed.

End string_facts.

(** ** Return-type detection of [parse_operation] *)

Section return_type.
Implicit Types (s op pre post : string).

Lemma visibility_plain s :
  starts_with_visibility s = true → all_chars plain (take 1 s) = true.
Proof.
  destruct s as [|x s]; [done|]. simpl. rewrite andb_true_r.
  destruct x as [[] [] [] [] [] [] [] []]; vm_compute; congruence.
Qed.

Lemma take_drop_1 s : s = take 1 s +:+ drop 1 s.
Proof. by destruct s. Qed.

Lemma blank_plain s : all_chars isspace s = true → all_chars plain s = true.
Proof. apply all_chars_impl, isspace_plain. Qed.

(** The raw string is its body between a prefix free of colons and
    parentheses and a blank suffix. *)
Lemma signature_frame s :
  ∃ pre post, all_chars plain pre = true ∧ all_chars isspace post = true
              ∧ s = pre +:+ signature_body s +:+ post.
Proof.
  unfold signature_body, take_visibility.
  destruct (strip_split s) as (pre1 & post1 & Hpre1 & Hpost1 & Hs).
  destruct (starts_with_visibility (strip s)) eqn:Hvis; simpl.
  - destruct (strip_split (drop 1 (strip s))) as (pre2 & post2 & Hpre2 & Hpost2 & Hd).
    exists (pre1 +:+ take 1 (strip s) +:+ pre2), (post2 +:+ post1).
    rewrite !all_chars_app, Hpost1, Hpost2.
    rewrite (blank_plain _ Hpre1), (blank_plain _ Hpre2), (visibility_plain _ Hvis).
    split_and!; [done..|].
    set (t := strip s) in *. set (u := strip (drop 1 t)) in *.
    transitivity (pre1 +:+ (take 1 t +:+ drop 1 t) +:+ post1);
      [by rewrite <- take_drop_1|].
    rewrite Hd. by rewrite !app_assoc_str.
  - exists pre1, post1. rewrite (blank_plain _ Hpre1). done.
Qed.

Lemma plain_no_colon x : plain x = true → Ascii.eqb x ":" = false.
Proof. unfold plain. destruct (Ascii.eqb x ":"); [done|done]. Qed.

Lemma plain_no_open x : plain x = true → Ascii.eqb x "(" = false.
Proof. unfold plain. destruct (Ascii.eqb x "("); [by rewrite andb_false_r|done]. Qed.

Lemma plain_no_close x : plain x = true → Ascii.eqb x ")" = false.
Proof. unfold plain. destruct (Ascii.eqb x ")"); [by rewrite andb_false_r|done]. Qed.

Lemma count_frame c pre op post :
  (∀ x, plain x = true → Ascii.eqb x c = false) →
  all_chars plain pre = true → all_chars isspace post = true →
  count c (pre +:+ op +:+ post) = count c op.
Proof.
  intros Hc Hpre Hpost. rewrite !count_app.
  rewrite (count_absent c plain pre), (count_absent c plain post);
    auto using blank_plain.
Qed.

Lemma rfind_frame c pre op post :
  (∀ x, plain x = true → Ascii.eqb x c = false) →
  all_chars plain pre = true → all_chars isspace post = true →
  rfind c (pre +:+ op +:+ post) =
    if 0 <=? rfind c op then Z.of_nat (String.length pre) + rfind c op else -1.
Proof.
  intros Hc Hpre Hpost. rewrite !rfind_app.
  rewrite (rfind_absent c plain pre), (rfind_absent c plain post);
    auto using blank_plain.
Qed.

Lemma tail_frame pre op post k :
  all_chars isspace post = true →
  0 ≤ k < Z.of_nat (String.length op) →
  strip (slice_from (pre +:+ op +:+ post) (Z.of_nat (String.length pre) + k + 1))
  = strip (slice_from op (k + 1)).
Proof.
  intros Hpost Hk. rewrite !slice_from_drop.
  - replace (Z.to_nat (Z.of_nat (String.length pre) + k + 1))
      with (String.length pre + Z.to_nat (k + 1))%nat by lia.
    rewrite drop_app_length, drop_app_le by lia.
    by apply strip_app_blank.
  - lia.
  - rewrite !length_app_str. lia.
Qed.

Lemma parse_operation_return_type s :
  return_type (parse_operation s) =
    let op := signature_body s in
    if contains ":" op && (count "(" op =? count ")" op)%nat
    then if rfind ")" op <? rfind ":" op
         then strip (slice_from op (rfind ":" op + 1)) else "void"
    else "void".
Proof.
  unfold parse_operation, signature_body, return_type.
  destruct (take_visibility (strip s)) as [vis op]. cbn [snd].
  destruct (contains ":" op && (count "(" op =? count ")" op)%nat);
    [destruct (rfind ")" op <? rfind ":" op)|];
    repeat match goal with
           | |- context [if ?b then _ else _] => destruct b
           | |- context [split1 ?c ?t] => destruct (split1 c t) as [? [?|]]
           end; reflexivity.
Qed.

End return_type.

(** [C7] For every raw operation string, the return type produced by
    [parse_operation] is the trimmed text after the last colon when the
    numbers of opening and closing parentheses agree and the last colon
    lies after the last closing parenthesis ([rfind] yields [-1] for an
    absent character), and ["void"] otherwise; on
    ["+f(x: Map<K:V>): int"] the return type is ["int"]. *)
Theorem parse_operation_return_type_rule (s : string) :
  return_type (parse_operation s) =
    (if (count "(" s =? count ")" s)%nat && (rfind ")" s <? rfind ":" s)
     then strip (slice_from s (rfind ":" s + 1))
     else "void")
  ∧ return_type (parse_operation "+f(x: Map<K:V>): int") = "int".
Proof.
  split; [|reflexivity].
  rewrite parse_operation_return_type. cbv zeta.
  destruct (signature_frame s) as (pre & post & Hpre & Hpost & Hs).
  set (op := signature_body s) in *. clearbody op. subst s.
  rewrite !(count_frame _ pre op post), !(rfind_frame _ pre op post)
    by auto using plain_no_colon, plain_no_open, plain_no_close.
  rewrite contains_rfind.
  pose proof (rfind_bounds ":" op) as Hc. pose proof (rfind_bounds ")" op) as Hp.
  destruct (count "(" op =? count ")" op)%nat; [|by rewrite andb_false_r].
  rewrite andb_true_r, andb_true_l.
  destruct (Z.leb_spec 0 (rfind ":" op)) as [H0|H0].
  - destruct (Z.leb_spec 0 (rfind ")" op)) as [H1|H1].
    + destruct (Z.ltb_spec (rfind ")" op) (rfind ":" op)) as [H2|H2].
      * rewrite (proj2 (Z.ltb_lt _ _)) by lia. by rewrite tail_frame by (done || lia).
      * by rewrite (proj2 (Z.ltb_ge _ _)) by lia.
    + rewrite (proj2 (Z.ltb_lt (rfind ")" op) _)) by lia.
      rewrite (proj2 (Z.ltb_lt (-1) _)) by lia. by rewrite tail_frame by (done || lia).
  - destruct (0 <=? rfind ")" op); by rewrite (proj2 (Z.ltb_ge _ _)) by lia.
Qed.

(** ** Multiplicity normalisation *)

Lemma normalize_multiplicity_canonical (s : string) :
  s = "" ∨ strip s ≠ "" →
  normalize_multiplicity (normalize_multiplicity s) = normalize_multiplicity s.
Proof.
  intros [-> | Hs]; [reflexivity|].
  unfold normalize_multiplicity at 2 3.
  destruct (String.eqb s ""); [reflexivity|]. cbv zeta.
  destruct (String.eqb (strip s) "1") eqn:E1; [reflexivity|].
  destruct (String.eqb (strip s) "*" || String.eqb (strip s) "..*") eqn:E2;
    [reflexivity|].
  destruct (String.eqb (strip s) "1..") eqn:E3; [reflexivity|].
  unfold normalize_multiplicity.
  rewrite (proj2 (String.eqb_neq _ _) Hs). cbv zeta.
  by rewrite strip_idemp, E1, E2, E3.
Qed.

(** [C9] Normalisation is not idempotent on a blank multiplicity: the
    emptiness test runs before the trimming, so [" "] becomes the empty
    string, and normalising the empty string gives ["1..1"].  On ["*"] the
    result ["0..*"] is a fixed point. *)
Theorem normalize_multiplicity_blank :
  normalize_multiplicity " " = ""
  ∧ normalize_multiplicity (normalize_multiplicity " ") = "1..1"
  ∧ normalize_multiplicity "*" = "0..*"
  ∧ normalize_multiplicity "0..*" = "0..*".
Proof. repeat split; reflexivity. Qed.

(** ** Attribute parsing *)

Lemma contains_app c s t : contains c (s +:+ t) = contains c s || contains c t.
Proof.
  induction s as [|x s IH]; [done|]. rewrite app_cons. simpl.
  by destruct (Ascii.eqb x c).
Qed.

Lemma contains_signature_body c s :
  contains c s = false → contains c (signature_body s) = false.
Proof.
  destruct (signature_frame s) as (pre & post & _ & _ & Hs).
  rewrite Hs at 1. rewrite !contains_app.
  intros [_ [H _]%orb_false_iff]%orb_false_iff. done.
Qed.

(** The multiplicity field: the normalised specifier when the body has a
    bracket and ends with a closing one, the constant ["1"] otherwise. *)
Lemma parse_attribute_multiplicity (s : string) :
  multiplicity (parse_attribute s) =
    let a := signature_body s in
    if contains "[" a && endswith "]" a
    then normalize_multiplicity (slice a (rfind "[" a + 1) (-1))
    else "1".
Proof.
  unfold parse_attribute, multiplicity, signature_body.
  destruct (take_visibility (strip s)) as [vis a]. cbn [snd].
  destruct (contains "[" a && endswith "]" a);
    by destruct (split1 ":" _) as [? [?|]].
Qed.

(** Without an opening bracket the multiplicity field is ["1"]. *)
Lemma parse_attribute_unbracketed (s : string) :
  contains "[" s = false → multiplicity (parse_attribute s) = "1".
Proof.
  intros Hs%contains_signature_body.
  rewrite parse_attribute_multiplicity. cbv zeta. by rewrite Hs.
Qed.

(** [C2] An attribute without a multiplicity specifier gets the
    multiplicity ["1"], not the normalised ["1..1"]:
    [parse_attribute "age"] is [("+", "age", "", "1")].  With a specifier the
    result is as stated: [parse_attribute "+name: Type[0..*]"] is
    [("+", "name", "Type", "0..*")]. *)
Theorem parse_attribute_examples :
  parse_attribute "age" = ("+", "age", "", "1")
  ∧ parse_attribute "+name: Type[0..*]" = ("+", "name", "Type", "0..*").
Proof. split; reflexivity. Qed.

(** ** Associations *)

Lemma ltb_flip (a b : string) : a ≠ b → String.ltb a b = negb (String.ltb b a).
Proof.
  intros Hab. unfold String.ltb. rewrite (String.compare_antisym b a).
  destruct (String.compare a b) eqn:E; try done.
  by apply String.compare_eq_iff in E.
Qed.

Lemma parse_association_full (src tgt dir ms mt : string) :
  parse_association (assoc_record src tgt dir ms mt) =
    Ok (if bool_decide (dir = "bidirectional")
        then if String.ltb tgt src then (tgt, src) else (src, tgt)
        else (src, tgt),
        normalize_multiplicity mt, normalize_multiplicity ms).
Proof.
  unfold parse_association, getitem, assoc_record.
  simplify_map_eq. simpl.
  destruct (decide (dir = "bidirectional")) as [->|Hd].
  - by rewrite !bool_decide_eq_true_2.
  - rewrite !bool_decide_eq_false_2; [done..|]. congruence.
Qed.

(** A bidirectional association and its reversal get the same ordered
    endpoint pair, and the two multiplicities in opposite orders. *)
Lemma parse_association_reversed (a b m1 m2 : string) :
  a ≠ b →
  ∃ pair,
    pair = (if String.ltb b a then (b, a) else (a, b))
    ∧ parse_association (assoc_record a b "bidirectional" m1 m2)
      = Ok (pair, normalize_multiplicity m2, normalize_multiplicity m1)
    ∧ parse_association (assoc_record b a "bidirectional" m2 m1)
      = Ok (pair, normalize_multiplicity m1, normalize_multiplicity m2).
Proof.
  intros Hab. eexists. split; [reflexivity|].
  rewrite !parse_association_full. rewrite !bool_decide_eq_true_2 by done.
  rewrite (ltb_flip a b Hab). by destruct (String.ltb b a).
Qed.

(** [C1] The reversed record of a bidirectional association does not get
    the same key: the endpoint pair is ordered, but the multiplicities are
    not swapped with it.  For A-B with multiplicities ("1", "*") the key is
    [(("A","B"), "0..*", "1..1")], for the reversed record B-A with ("*", "1")
    it is [(("A","B"), "1..1", "0..*")]. *)
Theorem parse_association_reversed_example :
  parse_association (assoc_record "A" "B" "bidirectional" "1" "*")
    = Ok (("A", "B"), "0..*", "1..1")
  ∧ parse_association (assoc_record "B" "A" "bidirectional" "*" "1")
    = Ok (("A", "B"), "1..1", "0..*").
Proof. split; vm_compute; reflexivity. Qed.

(** ** Relationship extraction *)

Lemma has_field_true (rel : record) (key : string) :
  has_field rel key = true → ∃ v, rel !! key = Some v.
Proof. unfold has_field. intros [v Hv]%bool_decide_eq_true. eauto. Qed.

Lemma record_key_well_formed (rt : rel_type) (rel : record) :
  well_formed rt rel = true → ∃ key, record_key rt rel = Ok (Some key).
Proof.
  unfold well_formed.
  intros [[v1 H1]%has_field_true [v2 H2]%has_field_true]%andb_true_iff.
  destruct rt; simpl in *; rewrite ?H1, ?H2; eauto.
  unfold parse_association, getitem. rewrite H1, H2. simpl. eauto.
Qed.

Lemma record_key_malformed (rt : rel_type) (rel : record) :
  well_formed rt rel = false → record_key rt rel = Ok None.
Proof.
  unfold well_formed, has_field. intros H.
  destruct rt; simpl in *;
    repeat match goal with
           | |- context [rel !! ?k] => destruct (rel !! k) eqn:?
           end; try done;
    rewrite !bool_decide_eq_true_2 in H by eauto; done.
Qed.

(** The key that [record_key] builds from the two required fields [a] and
    [b] of a record, written out by relationship type. *)
Lemma record_key_explicit (rt : rel_type) (rel : record) (a b : string) :
  rel !! (required_fields rt).1 = Some a →
  rel !! (required_fields rt).2 = Some b →
  record_key rt rel =
    Ok (Some
      match rt with
      | association =>
          AssocKey
            (if bool_decide (rel !! "direction" = Some "bidirectional")
                && String.ltb b a
             then (b, a) else (a, b),
             normalize_multiplicity (default "" (rel !! "multiplicity_target")),
             normalize_multiplicity (default "" (rel !! "multiplicity_source")))
      | composition | aggregation =>
          WholePartKey
            (a, b,
             normalize_multiplicity (default "1" (rel !! "multiplicity_whole")),
             normalize_multiplicity (default "1" (rel !! "multiplicity_part")))
      | dependency | inheritance | realization => PairKey (a, b)
      end).
Proof.
  destruct rt; cbn [required_fields fst snd record_key]; intros Ha Hb;
    rewrite ?Ha, ?Hb; try reflexivity.
  unfold parse_association, getitem. rewrite Ha, Hb. simpl.
  destruct (bool_decide (rel !! "direction" = Some "bidirectional"));
    by destruct (String.ltb b a).
Qed.

(** [C5] For every relationship type, a list made of one well-formed
    record (required fields [a] and [b]) and one record that lacks a
    required field, in either order, yields the singleton set with the key
    of the well-formed record and exactly one warning, the one that reports
    the malformed record as skipped; the extraction returns normally.  The
    key is the one of the record's fields: for an association the endpoint
    pair [(a, b)], reversed when the direction is ["bidirectional"] and [b]
    is the smaller name, with the normalised target and source
    multiplicities; for a composition or aggregation [(a, b)] with the
    normalised whole and part multiplicities; [(a, b)] otherwise. *)
Theorem process_relationships_skips_malformed
    (rt : rel_type) (good bad : record) (a b : string) :
  good !! (required_fields rt).1 = Some a →
  good !! (required_fields rt).2 = Some b →
  well_formed rt bad = false →
  let key :=
    match rt with
    | association =>
        AssocKey
          (if bool_decide (good !! "direction" = Some "bidirectional")
              && String.ltb b a
           then (b, a) else (a, b),
           normalize_multiplicity (default "" (good !! "multiplicity_target")),
           normalize_multiplicity (default "" (good !! "multiplicity_source")))
    | composition | aggregation =>
        WholePartKey
          (a, b,
           normalize_multiplicity (default "1" (good !! "multiplicity_whole")),
           normalize_multiplicity (default "1" (good !! "multiplicity_part")))
    | dependency | inheritance | realization => PairKey (a, b)
    end in
  well_formed rt good = true
  ∧ record_key rt good = Ok (Some key)
  ∧ process_relationships [good; bad] rt = ({[ key ]}, [SkippingMalformed rt bad])
  ∧ process_relationships [bad; good] rt = ({[ key ]}, [SkippingMalformed rt bad]).
Proof.
  intros Ha Hb Hbad%record_key_malformed key.
  pose proof (record_key_explicit rt good a b Ha Hb) as Hkey. fold key in Hkey.
  split_and!; [|done| |].
  - unfold well_formed, has_field. rewrite Ha, Hb.
    by rewrite !bool_decide_eq_true_2 by eauto.
  - unfold process_relationships. cbn [process_from].
    rewrite Hkey, Hbad. cbn iota zeta. by rewrite (right_id_L ∅ (∪)).
  - unfold process_relationships. cbn [process_from].
    rewrite Hkey, Hbad. cbn iota zeta. by rewrite (right_id_L ∅ (∪)).
Qed.

Lemma process_relationships_skips_malformed_witness :
  well_formed association (assoc_record "B" "A" "bidirectional" "1" "*") = true
  ∧ record_key association (assoc_record "B" "A" "bidirectional" "1" "*")
    = Ok (Some (AssocKey (("A", "B"), "0..*", "1..1")))
  ∧ process_relationships
      [ assoc_record "B" "A" "bidirectional" "1" "*"; {[ "source" := "X" ]} ]
      association
    = ({[ AssocKey (("A", "B"), "0..*", "1..1") ]},
       [SkippingMalformed association {[ "source" := "X" ]}])
  ∧ process_relationships
      [ {[ "source" := "X" ]}; assoc_record "B" "A" "bidirectional" "1" "*" ]
      association
    = ({[ AssocKey (("A", "B"), "0..*", "1..1") ]},
       [SkippingMalformed association {[ "source" := "X" ]}]).
Proof.
  apply (process_relationships_skips_malformed association
           (assoc_record "B" "A" "bidirectional" "1" "*")
           {[ "source" := "X" ]} "B" "A");
    reflexivity.
Defined.

(** ** Metrics *)

Lemma float_pos_nonzero (x : float) :
  PrimFloat.ltb 0 x = true → PrimFloat.eqb x 0 = false.
Proof.
  rewrite FloatAxioms.ltb_spec, FloatAxioms.eqb_spec.
  change (Prim2SF 0) with (S754_zero false).
  unfold SFltb, SFeqb.
  destruct (Prim2SF x) as [ [] | [] | | [] m e]; simpl; congruence.
Qed.

Lemma float_zero_not_pos (x : float) :
  PrimFloat.eqb x 0 = true → PrimFloat.ltb 0 x = false.
Proof.
  intros H. destruct (PrimFloat.ltb 0 x) eqn:E; [|done].
  apply float_pos_nonzero in E. congruence.
Qed.

Lemma ratio_total (match_n n : nat) : ∃ q, ratio match_n n = Ok q.
Proof. unfold ratio, true_div. destruct n as [|n]; simpl; eauto. Qed.

Lemma ratio_zero (match_n : nat) : ratio match_n 0 = Ok 0%float.
Proof. reflexivity. Qed.

Lemma harmonic_total (p r : float) : ∃ f, harmonic p r = Ok f.
Proof.
  unfold harmonic, float_div.
  destruct (PrimFloat.ltb 0 (p + r)) eqn:E; [|eauto].
  rewrite (float_pos_nonzero _ E). eauto.
Qed.

Lemma harmonic_zero (p r : float) :
  PrimFloat.eqb (p + r) 0 = true → harmonic p r = Ok 0%float.
Proof. intros H. unfold harmonic. by rewrite (float_zero_not_pos _ H). Qed.

Lemma calc_prf_total (true_n pred_n match_n : nat) :
  ∃ m, calc_prf true_n pred_n match_n = Ok m.
Proof.
  unfold calc_prf.
  destruct (ratio_total match_n pred_n) as [p ->].
  destruct (ratio_total match_n true_n) as [r ->]. simpl.
  destruct (harmonic_total p r) as [f ->]. simpl. eauto.
Qed.

(** [C8] For all counts, [calc_prf] returns normally (no division by
    zero): its result is built from two ratios [p] and [r] that are [0.0]
    when their denominator is zero, so precision is [0.0] when [pred_n = 0]
    and recall is [0.0] when [true_n = 0]; f1 is [0.0] when [p + r] equals
    zero; and with both counts zero all three are [0.0]. *)
Theorem calc_prf_boundary (true_n pred_n match_n : nat) :
  ∃ p r m,
    ratio match_n pred_n = Ok p
    ∧ ratio match_n true_n = Ok r
    ∧ calc_prf true_n pred_n match_n = Ok m
    ∧ precision m = round4 p
    ∧ recall m = round4 r
    ∧ (pred_n = 0%nat → precision m = 0%float)
    ∧ (true_n = 0%nat → recall m = 0%float)
    ∧ (PrimFloat.eqb (p + r) 0 = true → f1 m = 0%float)
    ∧ (true_n = 0%nat → pred_n = 0%nat →
       m = {| precision := 0; recall := 0; f1 := 0 |}).
Proof.
  destruct (ratio_total match_n pred_n) as [p Hp].
  destruct (ratio_total match_n true_n) as [r Hr].
  destruct (harmonic_total p r) as [f Hf].
  exists p, r, {| precision := round4 p; recall := round4 r; f1 := round4 f |}.
  split_and!; try done.
  - unfold calc_prf. by rewrite Hp, Hr; simpl; rewrite Hf.
  - intros ->. simpl. rewrite (ratio_zero match_n) in Hp. by injection Hp as <-.
  - intros ->. simpl. rewrite (ratio_zero match_n) in Hr. by injection Hr as <-.
  - intros H0. simpl. rewrite (harmonic_zero _ _ H0) in Hf. by injection Hf as <-.
  - intros -> ->. rewrite (ratio_zero match_n) in Hp, Hr.
    injection Hp as <-. injection Hr as <-.
    vm_compute in Hf. by injection Hf as <-.
Qed.

(** ** Element universes *)

Section elements.
Implicit Types (elems : gmap string element) (n name : string).

Lemma fold_add_enum_lookup_notin (l : list enum_decl) elems n :
  n ∉ map enum_name l → fold_left add_enum l elems !! n = elems !! n.
Proof.
  revert elems. induction l as [|e l IH]; intros elems Hn; [done|].
  simpl in *. apply not_elem_of_cons in Hn as [He Hl].
  rewrite IH by done. unfold add_enum. by rewrite lookup_insert_ne.
Qed.

(** The last enumeration of a name decides the entry of that name. *)
Lemma fold_add_enum_lookup_last (l1 l2 : list enum_decl) (e : enum_decl) elems :
  enum_name e ∉ map enum_name l2 →
  fold_left add_enum (l1 ++ e :: l2) elems !! enum_name e = Some (enum_element e).
Proof.
  intros Hn. rewrite fold_left_app. simpl.
  rewrite fold_add_enum_lookup_notin by done.
  unfold add_enum at 1. by rewrite lookup_insert_eq.
Qed.

Lemma dom_fold_add_class (l : list class_decl) elems :
  dom (fold_left add_class l elems) = list_to_set (map cls_name l) ∪ dom elems.
Proof.
  revert elems. induction l as [|c l IH]; intros elems; simpl.
  - by rewrite (left_id_L ∅ (∪)).
  - rewrite IH. unfold add_class. rewrite dom_insert_L.
    by rewrite (assoc_L (∪)), (comm_L (∪) (list_to_set _) {[ _ ]}).
Qed.

Lemma dom_fold_add_enum (l : list enum_decl) elems :
  dom (fold_left add_enum l elems) = list_to_set (map enum_name l) ∪ dom elems.
Proof.
  revert elems. induction l as [|e l IH]; intros elems; simpl.
  - by rewrite (left_id_L ∅ (∪)).
  - rewrite IH. unfold add_enum. rewrite dom_insert_L.
    by rewrite (assoc_L (∪)), (comm_L (∪) (list_to_set _) {[ _ ]}).
Qed.

Lemma dom_load_elements (data : document) :
  dom (load_elements data) = list_to_set (declared_names data).
Proof.
  unfold load_elements, declared_names.
  rewrite dom_fold_add_enum, dom_fold_add_class, dom_empty_L, list_to_set_app_L.
  by rewrite (right_id_L ∅ (∪)), (comm_L (∪)).
Qed.

Lemma size_load_elements (data : document) :
  size (load_elements data) = size (list_to_set (declared_names data) : gset string).
Proof. by rewrite <- dom_load_elements, size_dom. Qed.

(** *** Matching *)

Lemma same_content_true (t p : element) :
  same_content t p = true ↔ attrs t = attrs p ∧ ops t = ops p.
Proof.
  unfold same_content. rewrite andb_true_iff, !bool_decide_eq_true. done.
Qed.

Lemma elem_of_match_fold (preds : gmap string element)
    (l : list (string * element)) (acc : gset string) name :
  name ∈ fold_left (match_step preds) l acc ↔
    name ∈ acc ∨ ∃ t p, (name, t) ∈ l ∧ preds !! name = Some p
                        ∧ same_content t p = true.
Proof.
  revert acc. induction l as [|[n t] l IH]; intros acc; simpl.
  - split; [auto|]. intros [?|(? & ? & []%elem_of_nil & _)]; done.
  - rewrite IH. unfold match_step. simpl. split.
    + intros [Hacc|(t' & p & Hin & Hp & Hsame)].
      * destruct (preds !! n) as [p|] eqn:Hp; [|by left].
        destruct (same_content t p) eqn:Hsame; [|by left].
        apply elem_of_union in Hacc as [->%elem_of_singleton|?]; [|by left].
        right. exists t, p. split_and!; [left|done..].
      * right. exists t', p. split_and!; [by right|done..].
    + intros [Hacc|(t' & p & Hin & Hp & Hsame)].
      * left. destruct (preds !! n); [|done].
        destruct (same_content t _); [|done]. apply elem_of_union. by right.
      * apply elem_of_cons in Hin as [[= -> ->]|Hin].
        -- left. rewrite Hp, Hsame. apply elem_of_union. left.
           by apply elem_of_singleton.
        -- right. eauto.
Qed.

Lemma elem_of_match_elements (trues preds : gmap string element) name :
  name ∈ match_elements trues preds ↔
    ∃ t p, trues !! name = Some t ∧ preds !! name = Some p
           ∧ same_content t p = true.
Proof.
  unfold match_elements. rewrite elem_of_match_fold. split.
  - intros [[]%not_elem_of_empty|(t & p & Hin%elem_of_map_to_list & ?)]. eauto.
  - intros (t & p & Hin%elem_of_map_to_list & ?). eauto.
Qed.

Lemma elem_of_sorted (names : gset string) name :
  name ∈ sorted names ↔ name ∈ names.
Proof. unfold sorted. by rewrite merge_sort_Permutation, elem_of_elements. Qed.

Lemma length_sorted (names : gset string) : length (sorted names) = size names.
Proof. unfold sorted. by rewrite merge_sort_Permutation. Qed.

(** The shape of the result: the three metric triples are [calc_prf] of
    the counts, and the call returns normally. *)
Lemma compute_metrics_returns (true_data pred_data : document) :
  ∃ rep,
    (compute_metrics true_data pred_data).2 = Ok rep
    ∧ detailed_class_matching rep =
        (let trues := load_elements true_data in
         let preds := load_elements pred_data in
         {| matched := sorted (match_elements trues preds);
            mismatched_in_ground_truth :=
              sorted (dom trues ∖ match_elements trues preds);
            extra_in_prediction :=
              sorted (dom preds ∖ match_elements trues preds) |})
    ∧ true_classes_and_enums (report_counts rep) = size (load_elements true_data)
    ∧ predicted_classes_and_enums (report_counts rep) = size (load_elements pred_data)
    ∧ matched_classes_and_enums (report_counts rep)
      = size (match_elements (load_elements true_data) (load_elements pred_data))
    ∧ true_relationships (report_counts rep)
      = sum_list (map (λ rt, size (load_relationships true_data rt)) rel_types)
    ∧ predicted_relationships (report_counts rep)
      = sum_list (map (λ rt, size (load_relationships pred_data rt)) rel_types)
    ∧ matched_relationships (report_counts rep)
      = sum_list (map (λ rt, size (load_relationships true_data rt
                                   ∩ load_relationships pred_data rt)) rel_types)
    ∧ calc_prf (true_classes_and_enums (report_counts rep))
               (predicted_classes_and_enums (report_counts rep))
               (matched_classes_and_enums (report_counts rep))
      = Ok (class_metrics rep)
    ∧ calc_prf (true_relationships (report_counts rep))
               (predicted_relationships (report_counts rep))
               (matched_relationships (report_counts rep))
      = Ok (relationship_metrics rep)
    ∧ calc_prf (true_classes_and_enums (report_counts rep)
                + true_relationships (report_counts rep))
               (predicted_classes_and_enums (report_counts rep)
                + predicted_relationships (report_counts rep))
               (matched_classes_and_enums (report_counts rep)
                + matched_relationships (report_counts rep))
      = Ok (overall_metrics rep).
Proof.
  unfold compute_metrics. cbv zeta. cbn [snd].
  match goal with
  | |- context [mbind _ (calc_prf ?a ?b ?c)] =>
      destruct (calc_prf_total a b c) as [cm Hcm]; rewrite Hcm; cbn [mbind result_bind]
  end.
  match goal with
  | |- context [mbind _ (calc_prf ?a ?b ?c)] =>
      destruct (calc_prf_total a b c) as [rm Hrm]; rewrite Hrm; cbn [mbind result_bind]
  end.
  match goal with
  | |- context [mbind _ (calc_prf ?a ?b ?c)] =>
      destruct (calc_prf_total a b c) as [om Hom]; rewrite Hom; cbn [mbind result_bind]
  end.
  eexists. split; [reflexivity|]. simpl. split_and!; done.
Qed.

End elements.

(** ** compute_metrics *)

(** [C3] On the end-to-end example (ground truth [Car] with
    ["+speed: int"], prediction [Car] with ["+speed: int[1]"]) [Car] is not
    matched and the class metrics are all [0.0]: the attribute without a
    specifier has multiplicity ["1"], the one with [[1]] has ["1..1"]. *)
Theorem compute_metrics_car_example :
  parse_attribute "+speed: int" = ("+", "speed", "int", "1")
  ∧ parse_attribute "+speed: int[1]" = ("+", "speed", "int", "1..1")
  ∧ (compute_metrics car_truth car_prediction).2 =
      Ok {| class_metrics := {| precision := 0; recall := 0; f1 := 0 |};
            relationship_metrics := {| precision := 0; recall := 0; f1 := 0 |};
            overall_metrics := {| precision := 0; recall := 0; f1 := 0 |};
            report_counts :=
              {| true_classes_and_enums := 1;
                 predicted_classes_and_enums := 1;
                 matched_classes_and_enums := 0;
                 true_relationships := 0;
                 predicted_relationships := 0;
                 matched_relationships := 0 |};
            detailed_class_matching :=
              {| matched := [];
                 mismatched_in_ground_truth := ["Car"];
                 extra_in_prediction := ["Car"] |} |}.
Proof. split_and!; vm_compute; reflexivity. Qed.

(** [C4] A name present in both universes is in the matched list, and
    counted, exactly when the attribute sets and the operation sets of the
    two sides are equal; when they differ the name is absent from the matched
    list and present in both [mismatched_in_ground_truth] and
    [extra_in_prediction]. *)
Theorem element_matching_exact
    (true_data pred_data : document) (name : string) (t p : element) :
  load_elements true_data !! name = Some t →
  load_elements pred_data !! name = Some p →
  ∃ rep,
    (compute_metrics true_data pred_data).2 = Ok rep
    ∧ matched_classes_and_enums (report_counts rep)
      = length (matched (detailed_class_matching rep))
    ∧ (name ∈ matched (detailed_class_matching rep)
       ↔ attrs t = attrs p ∧ ops t = ops p)
    ∧ (¬ (attrs t = attrs p ∧ ops t = ops p) →
       (name ∉ matched (detailed_class_matching rep))
       ∧ name ∈ mismatched_in_ground_truth (detailed_class_matching rep)
       ∧ name ∈ extra_in_prediction (detailed_class_matching rep)).
Proof.
  intros Ht Hp.
  destruct (compute_metrics_returns true_data pred_data)
    as (rep & Hrep & Hdet & _ & _ & Hmc & _).
  exists rep. rewrite Hdet, Hmc. cbn.
  assert (name ∈ match_elements (load_elements true_data) (load_elements pred_data)
          ↔ attrs t = attrs p ∧ ops t = ops p) as Hiff.
  { rewrite elem_of_match_elements. split.
    - intros (t' & p' & Ht' & Hp' & Hsame). simplify_eq.
      by apply same_content_true.
    - intros Hsame%same_content_true. eauto. }
  split_and!; [done|by rewrite length_sorted|by rewrite elem_of_sorted|].
  intros Hne. rewrite !elem_of_sorted, !elem_of_difference, !elem_of_dom, Hiff.
  rewrite Ht, Hp. split_and!; eauto.
Qed.

Lemma element_matching_exact_witness :
  ∃ rep,
    (compute_metrics car_truth car_prediction).2 = Ok rep
    ∧ matched_classes_and_enums (report_counts rep)
      = length (matched (detailed_class_matching rep))
    ∧ ("Car" ∈ matched (detailed_class_matching rep)
       ↔ attrs (class_element {| cls_name := "Car";
                                 cls_attributes := ["+speed: int"];
                                 cls_operations := [] |})
         = attrs (class_element {| cls_name := "Car";
                                   cls_attributes := ["+speed: int[1]"];
                                   cls_operations := [] |})
         ∧ ops (class_element {| cls_name := "Car";
                                 cls_attributes := ["+speed: int"];
                                 cls_operations := [] |})
           = ops (class_element {| cls_name := "Car";
                                   cls_attributes := ["+speed: int[1]"];
                                   cls_operations := [] |}))
    ∧ (¬ (attrs (class_element {| cls_name := "Car";
                                  cls_attributes := ["+speed: int"];
                                  cls_operations := [] |})
          = attrs (class_element {| cls_name := "Car";
                                    cls_attributes := ["+speed: int[1]"];
                                    cls_operations := [] |})
          ∧ ops (class_element {| cls_name := "Car";
                                  cls_attributes := ["+speed: int"];
                                  cls_operations := [] |})
            = ops (class_element {| cls_name := "Car";
                                    cls_attributes := ["+speed: int[1]"];
                                    cls_operations := [] |})) →
       ("Car" ∉ matched (detailed_class_matching rep))
       ∧ "Car" ∈ mismatched_in_ground_truth (detailed_class_matching rep)
       ∧ "Car" ∈ extra_in_prediction (detailed_class_matching rep)).
Proof.
  apply (element_matching_exact car_truth car_prediction "Car"); reflexivity.
Defined.

(** [C6] The overall triple is [calc_prf] applied to the sums of the raw
    counts (elements plus relationships, for the true, the predicted and the
    matched counts), and it is not the average of the two F1 values: for a
    ground truth with one class and one dependency against a prediction with
    the class alone, the overall F1 differs from the mean of the class F1 and
    the relationship F1. *)
Theorem overall_metrics_from_summed_counts :
  (∀ true_data pred_data : document,
     ∃ rep,
       (compute_metrics true_data pred_data).2 = Ok rep
       ∧ true_classes_and_enums (report_counts rep) = size (load_elements true_data)
       ∧ predicted_classes_and_enums (report_counts rep)
         = size (load_elements pred_data)
       ∧ matched_classes_and_enums (report_counts rep)
         = size (match_elements (load_elements true_data) (load_elements pred_data))
       ∧ true_relationships (report_counts rep)
         = sum_list (map (λ rt, size (load_relationships true_data rt)) rel_types)
       ∧ predicted_relationships (report_counts rep)
         = sum_list (map (λ rt, size (load_relationships pred_data rt)) rel_types)
       ∧ matched_relationships (report_counts rep)
         = sum_list (map (λ rt, size (load_relationships true_data rt
                                      ∩ load_relationships pred_data rt)) rel_types)
       ∧ calc_prf (true_classes_and_enums (report_counts rep)
                   + true_relationships (report_counts rep))
                  (predicted_classes_and_enums (report_counts rep)
                   + predicted_relationships (report_counts rep))
                  (matched_classes_and_enums (report_counts rep)
                   + matched_relationships (report_counts rep))
         = Ok (overall_metrics rep))
  ∧ (∃ rep,
       (compute_metrics dependency_truth dependency_prediction).2 = Ok rep
       ∧ f1 (class_metrics rep) = 1%float
       ∧ f1 (relationship_metrics rep) = 0%float
       ∧ overall_metrics rep = {| precision := 1; recall := 0.5; f1 := 6667 / 10000 |}
       ∧ PrimFloat.eqb (f1 (overall_metrics rep))
           ((f1 (class_metrics rep) + f1 (relationship_metrics rep)) / 2) = false).
Proof.
  split.
  - intros true_data pred_data.
    destruct (compute_metrics_returns true_data pred_data)
      as (rep & Hrep & _ & Htc & Hpc & Hmc & Htr & Hpr & Hmr & _ & _ & Hom).
    exists rep. split_and!; done.
  - eexists. split; [vm_compute; reflexivity|]. split_and!; vm_compute; reflexivity.
Qed.

(** [C10] When a document declares a class and an enumeration of the same
    name, the entry of that name is the enumeration's (that of the last
    enumeration so named): its attributes are the literals, its operation
    set is empty.  The element count is the number of distinct declared
    names, so the shared name counts once, and against a prediction the name
    is matched exactly when the prediction has the literal set as attributes
    and no operations. *)
Theorem enumeration_overrides_class
    (data : document) (cls : class_decl) (enum : enum_decl)
    (before after : list enum_decl) :
  cls ∈ classes data →
  enumerations data = before ++ enum :: after →
  enum_name enum ∉ map enum_name after →
  cls_name cls = enum_name enum →
  load_elements data !! cls_name cls =
    Some {| type := TEnum;
            attrs := list_to_set (map (λ lit, ("+", lit, "", "1")) (enum_literals enum));
            ops := ∅ |}
  ∧ size (load_elements data) = size (list_to_set (declared_names data) : gset string)
  ∧ ∀ (pred_data : document) (p : element),
      load_elements pred_data !! cls_name cls = Some p →
      ∃ rep,
        (compute_metrics data pred_data).2 = Ok rep
        ∧ true_classes_and_enums (report_counts rep)
          = size (list_to_set (declared_names data) : gset string)
        ∧ (cls_name cls ∈ matched (detailed_class_matching rep)
           ↔ list_to_set (map (λ lit, ("+", lit, "", "1")) (enum_literals enum))
             = attrs p ∧ ∅ = ops p).
Proof.
  intros _ Henums Hlast Hname.
  assert (load_elements data !! cls_name cls = Some (enum_element enum)) as Hentry.
  { unfold load_elements. rewrite Henums, Hname.
    by apply fold_add_enum_lookup_last. }
  split_and!; [done|apply size_load_elements|].
  intros pred_data p Hp.
  destruct (compute_metrics_returns data pred_data)
    as (rep & Hrep & Hdet & Htc & _).
  exists rep. rewrite Hdet, Htc. cbn.
  split_and!; [done|apply size_load_elements|].
  rewrite elem_of_sorted, elem_of_match_elements. split.
  - intros (t' & p' & Ht' & Hp' & Hsame). simplify_eq.
    by apply same_content_true in Hsame.
  - intros Hsame. exists (enum_element enum), p. split_and!; [done..|].
    by apply same_content_true.
Qed.

Lemma enumeration_overrides_class_witness :
  load_elements color_document !! "Color" =
    Some {| type := TEnum;
            attrs := list_to_set (map (λ lit, ("+", lit, "", "1")) ["RED"; "GREEN"]);
            ops := ∅ |}
  ∧ size (load_elements color_document)
    = size (list_to_set (declared_names color_document) : gset string)
  ∧ ∀ (pred_data : document) (p : element),
      load_elements pred_data !! "Color" = Some p →
      ∃ rep,
        (compute_metrics color_document pred_data).2 = Ok rep
        ∧ true_classes_and_enums (report_counts rep)
          = size (list_to_set (declared_names color_document) : gset string)
        ∧ ("Color" ∈ matched (detailed_class_matching rep)
           ↔ list_to_set (map (λ lit, ("+", lit, "", "1")) ["RED"; "GREEN"])
             = attrs p ∧ ∅ = ops p).
Proof.
  apply (enumeration_overrides_class color_document color_class color_enum [] []).
  - vm_compute. left.
  - reflexivity.
  - vm_compute. apply not_elem_of_nil.
  - reflexivity.
Defined.

(** * Further properties *)

(** ** The normaliser and the parsers on blanks *)

Lemma trimmed_true (s : string) : trimmed s = true ↔ strip s = s.
Proof. unfold trimmed. apply String.eqb_eq. Qed.

Lemma lstrip_app_blank_l (pre s : string) :
  all_chars isspace pre = true → lstrip (pre +:+ s) = lstrip s.
Proof.
  induction pre as [|x pre IH]; [done|]. rewrite app_cons. simpl.
  intros [Hx Hpre]%andb_true_iff. rewrite Hx. auto.
Qed.

Lemma strip_frame_blank (pre s post : string) :
  all_chars isspace pre = true → all_chars isspace post = true →
  strip (pre +:+ s +:+ post) = strip s.
Proof.
  intros Hpre Hpost. unfold strip at 1. rewrite lstrip_app_blank_l by done.
  by apply strip_app_blank.
Qed.

Lemma normalize_multiplicity_cases (s : string) :
  normalize_multiplicity s = "1..1" ∨ normalize_multiplicity s = "0..*"
  ∨ normalize_multiplicity s = "1..*"
  ∨ (normalize_multiplicity s = strip s ∧ is_shorthand (strip s) = false).
Proof.
  unfold normalize_multiplicity, is_shorthand.
  destruct (String.eqb s ""); [auto|]. cbv zeta.
  destruct (String.eqb (strip s) "1"); [auto|].
  destruct (String.eqb (strip s) "*"); [auto|].
  destruct (String.eqb (strip s) "..*"); [auto|].
  destruct (String.eqb (strip s) "1.."); auto.
Qed.

Lemma normalize_multiplicity_result (s : string) :
  trimmed (normalize_multiplicity s) = true
  ∧ is_shorthand (normalize_multiplicity s) = false.
Proof.
  destruct (normalize_multiplicity_cases s) as [-> | [-> | [-> | [-> Hs]]]];
    try (split; reflexivity).
  split; [|done]. apply trimmed_true, strip_idemp.
Qed.

(** [X1] The result of [normalize_multiplicity] is always trimmed and is
    never one of the short forms ["1"], ["*"], ["..*"], ["1.."]. *)
Theorem normalize_multiplicity_canonical_form (s : string) :
  trimmed (normalize_multiplicity s) = true
  ∧ is_shorthand (normalize_multiplicity s) = false.
Proof. exact (normalize_multiplicity_result s). Qed.

(** [X2] Blanks around a multiplicity are ignored: when the trimmed
    string is not empty, normalising it gives what normalising the raw
    string gives. *)
Theorem normalize_multiplicity_strip (s : string) :
  String.eqb (strip s) "" = false →
  normalize_multiplicity (strip s) = normalize_multiplicity s.
Proof.
  intros Hs. unfold normalize_multiplicity. rewrite Hs, strip_idemp.
  destruct (String.eqb s "") eqn:E; [|done].
  apply String.eqb_eq in E as ->. done.
Qed.

Lemma normalize_multiplicity_strip_witness :
  normalize_multiplicity (strip "  *  ") = normalize_multiplicity "  *  ".
Proof. apply (normalize_multiplicity_strip "  *  "). reflexivity. Defined.

(** [X3] Normalisation is idempotent on every string whose trimmed form
    is not empty. *)
Theorem normalize_multiplicity_idempotent (s : string) :
  String.eqb (strip s) "" = false →
  normalize_multiplicity (normalize_multiplicity s) = normalize_multiplicity s.
Proof.
  intros Hs%String.eqb_neq.
  destruct (normalize_multiplicity_cases s) as [H | [H | [H | [H Hshort]]]];
    rewrite H; try reflexivity.
  unfold normalize_multiplicity, is_shorthand in *.
  rewrite (proj2 (String.eqb_neq _ _) Hs), strip_idemp.
  destruct (String.eqb (strip s) "1"); [done|].
  destruct (String.eqb (strip s) "*"); [done|].
  destruct (String.eqb (strip s) "..*"); [done|].
  by destruct (String.eqb (strip s) "1..").
Qed.

Lemma normalize_multiplicity_idempotent_witness :
  normalize_multiplicity (normalize_multiplicity " 1.. ")
  = normalize_multiplicity " 1.. ".
Proof. apply (normalize_multiplicity_idempotent " 1.. "). reflexivity. Defined.

Lemma is_visibility_cases (v : string) :
  is_visibility v = true → v = "+" ∨ v = "-" ∨ v = "#" ∨ v = "~".
Proof.
  unfold is_visibility. rewrite !orb_true_iff, !String.eqb_eq. tauto.
Qed.

Lemma is_visibility_trimmed (v : string) : is_visibility v = true → trimmed v = true.
Proof. intros [-> | [-> | [-> | ->]]]%is_visibility_cases; reflexivity. Qed.

(** The marker taken from a trimmed string, and the trimmed rest. *)
Lemma take_visibility_strip (s : string) :
  is_visibility (take_visibility (strip s)).1 = true
  ∧ trimmed (take_visibility (strip s)).2 = true.
Proof.
  unfold take_visibility.
  destruct (starts_with_visibility (strip s)) eqn:Hvis; cbn [fst snd].
  - split; [|apply trimmed_true, strip_idemp].
    destruct (strip s) as [|c t]; [done|]. simpl in *.
    unfold is_visibility. rewrite !orb_true_iff in *.
    destruct Hvis as [[[H|H]|H]|H]; apply Ascii.eqb_eq in H as ->; auto.
  - split; [done|apply trimmed_true, strip_idemp].
Qed.

(** [X4] Every field of a parsed attribute is trimmed, and its visibility
    is one of [+], [-], [#], [~]. *)
Theorem parse_attribute_fields (s : string) :
  is_visibility (attr_visibility (parse_attribute s)) = true
  ∧ trimmed (attr_name (parse_attribute s)) = true
  ∧ trimmed (attr_type (parse_attribute s)) = true
  ∧ trimmed (multiplicity (parse_attribute s)) = true.
Proof.
  unfold parse_attribute, attr_visibility, attr_name, attr_type, multiplicity.
  destruct (take_visibility_strip s) as [Hvis Hbody].
  destruct (take_visibility (strip s)) as [vis a]. cbn [fst snd] in *.
  destruct (contains "[" a && endswith "]" a).
  - destruct (split1 ":" _) as [name [typ|]] eqn:Hsplit; cbn [fst snd];
      rewrite ?(proj2 (trimmed_true _) (strip_idemp _));
      split_and!; try done;
      apply normalize_multiplicity_result.
  - destruct (split1 ":" a) as [name [typ|]] eqn:Hsplit; cbn [fst snd];
      rewrite ?(proj2 (trimmed_true _) (strip_idemp _)); split_and!; done.
Qed.

Lemma trimmed_strip (s : string) : trimmed (strip s) = true.
Proof. apply trimmed_true, strip_idemp. Qed.

Lemma parse_param_trimmed (param : string) :
  Forall (λ q, trimmed q.1 = true ∧ trimmed q.2 = true) (parse_param param).
Proof.
  unfold parse_param. destruct (String.eqb (strip param) ""); [constructor|].
  destruct (split1 ":" (strip param)) as [p_name [p_type|]];
    repeat constructor; cbn [fst snd]; auto using trimmed_strip.
Qed.

(** [X5] Every component of a parsed operation is trimmed (the name, the
    return type, and the name and type of every parameter), and its
    visibility is one of [+], [-], [#], [~]. *)
Theorem parse_operation_fields (s : string) :
  is_visibility (op_visibility (parse_operation s)) = true
  ∧ trimmed (op_name (parse_operation s)) = true
  ∧ trimmed (return_type (parse_operation s)) = true
  ∧ Forall (λ q, trimmed q.1 = true ∧ trimmed q.2 = true)
           (op_params (parse_operation s)).
Proof.
  unfold parse_operation, op_visibility, op_name, op_params, return_type.
  destruct (take_visibility_strip s) as [Hvis Hbody].
  destruct (take_visibility (strip s)) as [vis op]. cbn [fst snd] in *.
  assert (∀ ret body : string,
    trimmed ret = true → trimmed body = true →
    let o : operation :=
      if negb (contains "(" body) then (vis, body, [], ret)
      else if negb (contains ")" body) then (vis, body, [], ret)
      else match split1 "(" body with
           | (name_part, Some rest) =>
               (vis, strip name_part,
                if String.eqb (strip (split1 ")" rest).1) "" then []
                else concat (map parse_param (split "," (split1 ")" rest).1)),
                ret)
           | (_, None) => (vis, body, [], ret)
           end in
    is_visibility o.1.1.1 = true ∧ trimmed o.1.1.2 = true ∧ trimmed o.2 = true
    ∧ Forall (λ q, trimmed q.1 = true ∧ trimmed q.2 = true) o.1.2) as Hrest.
  { intros ret body Hret Hb. cbv zeta.
    destruct (negb (contains "(" body)); [by split_and!|].
    destruct (negb (contains ")" body)); [by split_and!|].
    destruct (split1 "(" body) as [name_part [rest|]]; [|by split_and!].
    cbn [fst snd]. split_and!; [done|apply trimmed_strip|done|].
    destruct (String.eqb _ ""); [constructor|].
    apply Forall_concat, Forall_map, Forall_forall. intros p _.
    apply parse_param_trimmed. }
  destruct (contains ":" op && (count "(" op =? count ")" op)%nat);
    [destruct (rfind ")" op <? rfind ":" op)|];
    apply Hrest; auto using trimmed_strip.
Qed.

Lemma parse_attribute_of_strip (s : string) : parse_attribute (strip s) = parse_attribute s.
Proof. unfold parse_attribute. by rewrite strip_idemp. Qed.

Lemma parse_operation_of_strip (s : string) : parse_operation (strip s) = parse_operation s.
Proof. unfold parse_operation. by rewrite strip_idemp. Qed.

(** [X6] Both parsers ignore blanks around the raw string. *)
Theorem parsers_ignore_surrounding_blanks (pre s post : string) :
  all_chars isspace pre = true →
  all_chars isspace post = true →
  parse_attribute (pre +:+ s +:+ post) = parse_attribute s
  ∧ parse_operation (pre +:+ s +:+ post) = parse_operation s.
Proof.
  intros Hpre Hpost.
  rewrite <- (parse_attribute_of_strip (pre +:+ _)), <- (parse_operation_of_strip (pre +:+ _)).
  rewrite (strip_frame_blank pre s post Hpre Hpost).
  by rewrite parse_attribute_of_strip, parse_operation_of_strip.
Qed.

Lemma parsers_ignore_surrounding_blanks_witness :
  parse_attribute ("  " +:+ "-id: int[1]" +:+ " ") = parse_attribute "-id: int[1]"
  ∧ parse_operation ("  " +:+ "-id: int[1]" +:+ " ") = parse_operation "-id: int[1]".
Proof.
  apply (parsers_ignore_surrounding_blanks "  " "-id: int[1]" " "); reflexivity.
Defined.

Lemma rstrip_cons_plus (s : string) : rstrip (String "+" s) = String "+" (rstrip s).
Proof. simpl. by destruct (rstrip s). Qed.

Lemma strip_rstrip (s : string) : strip (rstrip s) = strip s.
Proof.
  destruct (rstrip_split s) as (post & Hpost & Hs).
  rewrite Hs at 2. by rewrite strip_app_blank.
Qed.

(** A signature with an explicit [+] has the same marker and body as the
    signature without a marker. *)
Lemma take_visibility_plus (s : string) :
  starts_with_visibility (strip s) = false →
  take_visibility (strip ("+" +:+ s)) = take_visibility (strip s).
Proof.
  intros Hs. unfold take_visibility at 2. rewrite Hs.
  unfold strip at 1. change ("+" +:+ s) with (String "+" s).
  cbn [lstrip]. change (isspace "+") with false. cbv iota.
  rewrite rstrip_cons_plus. unfold take_visibility. cbn.
  change (rstrip (lstrip (rstrip s))) with (strip (rstrip s)).
  by rewrite strip_rstrip.
Qed.

(** [X7] The public marker is the default: for a raw string that carries
    no visibility marker, writing [+] in front changes neither the parsed
    attribute nor the parsed operation. *)
Theorem explicit_plus_is_default (s : string) :
  starts_with_visibility (strip s) = false →
  parse_attribute ("+" +:+ s) = parse_attribute s
  ∧ parse_operation ("+" +:+ s) = parse_operation s.
Proof.
  intros Hs. unfold parse_attribute, parse_operation.
  by rewrite (take_visibility_plus s Hs).
Qed.

Lemma explicit_plus_is_default_witness :
  parse_attribute ("+" +:+ " size : int [*]") = parse_attribute " size : int [*]"
  ∧ parse_operation ("+" +:+ " size : int [*]") = parse_operation " size : int [*]".
Proof. apply (explicit_plus_is_default " size : int [*]"). reflexivity. Defined.

(** ** Rendering an attribute and parsing it back *)

Lemma lstrip_length (s : string) : (String.length (lstrip s) ≤ String.length s)%nat.
Proof.
  induction s as [|x s IH]; [done|]. simpl. destruct (isspace x); simpl; lia.
Qed.

Lemma strip_fixed_lstrip (a : string) : strip a = a → lstrip a = a.
Proof. intros Ha. rewrite <- Ha at 1. rewrite lstrip_strip. done. Qed.

Lemma strip_fixed_rstrip (a : string) : strip a = a → rstrip a = a.
Proof.
  intros Ha. pose proof (strip_fixed_lstrip a Ha) as Hl.
  unfold strip in Ha. by rewrite Hl in Ha.
Qed.

Lemma strip_fixed_head (x : ascii) (a : string) :
  strip (String x a) = String x a → isspace x = false.
Proof.
  intros Ha%strip_fixed_lstrip. simpl in Ha.
  destruct (isspace x); [|done].
  pose proof (lstrip_length a) as Hlen. rewrite Ha in Hlen. simpl in Hlen. lia.
Qed.

Lemma app_not_empty_r (a b : string) : b ≠ "" → a +:+ b ≠ "".
Proof. destruct a; [done|]. by rewrite app_cons. Qed.

Lemma rstrip_app_fixed (a b : string) :
  rstrip b = b → b ≠ "" → rstrip (a +:+ b) = a +:+ b.
Proof.
  intros Hb Hne. induction a as [|x a IH]; [done|].
  rewrite app_cons. simpl. rewrite IH.
  pose proof (app_not_empty_r a b Hne). by destruct (a +:+ b).
Qed.

(** A string that starts and ends with trimmed, non-empty pieces is
    trimmed. *)
Lemma strip_fixed_between (a mid b : string) :
  strip a = a → a ≠ "" → strip b = b → b ≠ "" →
  strip (a +:+ mid +:+ b) = a +:+ mid +:+ b.
Proof.
  intros Ha Hane Hb Hbne. unfold strip.
  destruct a as [|x a]; [done|].
  rewrite app_cons. cbn [lstrip]. rewrite (strip_fixed_head x a Ha).
  rewrite <- app_cons, <- app_assoc_str.
  by apply rstrip_app_fixed; [apply strip_fixed_rstrip|].
Qed.

Lemma rfind_not_contained (c : ascii) (s : string) :
  contains c s = false → rfind c s = -1.
Proof.
  rewrite contains_rfind. intros H%Z.leb_gt.
  pose proof (rfind_bounds c s). lia.
Qed.

Lemma endswith_app_char (c : ascii) (s : string) :
  endswith c (s +:+ String c "") = true.
Proof.
  induction s as [|x s IH]; [simpl; apply Ascii.eqb_refl|].
  rewrite app_cons. cbn [endswith].
  destruct (s +:+ String c "") eqn:E; [|done].
  by destruct s.
Qed.

Lemma take_app_length (a b : string) : take (String.length a) (a +:+ b) = a.
Proof.
  induction a as [|x a IH]; [by destruct b|]. rewrite app_cons. simpl. by rewrite IH.
Qed.

Lemma split1_app (c : ascii) (a b : string) :
  contains c a = false → split1 c (a +:+ String c b) = (a, Some b).
Proof.
  induction a as [|x a IH].
  - intros _. rewrite app_nil_l. simpl. by rewrite Ascii.eqb_refl.
  - rewrite app_cons. simpl. destruct (Ascii.eqb x c); [done|].
    intros Ha. by rewrite (IH Ha).
Qed.

Lemma marker_not_space (v : ascii) :
  starts_with_visibility (String v "") = true → isspace v = false.
Proof.
  simpl. rewrite !orb_true_iff.
  intros [[[H|H]|H]|H]; apply Ascii.eqb_eq in H as ->; reflexivity.
Qed.

Lemma string_neq_eqb (s : string) : String.eqb s "" = false → s ≠ "".
Proof. apply String.eqb_neq. Qed.

(** [X8] Parsing a rendered attribute gives its parts back: for a marker
    [v], a trimmed non-empty name without a colon, a trimmed non-empty type
    and a multiplicity without an opening bracket, the string
    [v name: type[mult]] parses to the marker, the name, the type and the
    normalised multiplicity. *)
Theorem parse_attribute_format (v : ascii) (name typ mult : string) :
  starts_with_visibility (String v "") = true →
  trimmed name = true → String.eqb name "" = false → contains ":" name = false →
  trimmed typ = true → String.eqb typ "" = false →
  contains "[" mult = false →
  parse_attribute (format_attribute v name typ mult)
  = (String v "", name, typ, normalize_multiplicity mult).
Proof.
  intros Hv Hname%trimmed_true Hnn%string_neq_eqb Hcolon
         Htyp%trimmed_true Htn%string_neq_eqb Hmult.
  set (front := name +:+ ": " +:+ typ).
  set (body := name +:+ ": " +:+ typ +:+ "[" +:+ mult +:+ "]").
  assert (body = front +:+ "[" +:+ mult +:+ "]") as Hbody
    by (unfold body, front; by rewrite !app_assoc_str).
  assert (strip front = front) as Hfront
    by (by apply strip_fixed_between).
  assert (strip body = body) as Hsb.
  { unfold body.
    replace (": " +:+ typ +:+ "[" +:+ mult +:+ "]")
      with ((": " +:+ typ +:+ "[" +:+ mult) +:+ "]")
      by (by rewrite !app_assoc_str).
    by apply strip_fixed_between. }
  assert (strip (String v body) = String v body) as Hs.
  { unfold strip. cbn [lstrip]. rewrite (marker_not_space v Hv).
    rewrite Hbody.
    replace (String v (front +:+ "[" +:+ mult +:+ "]"))
      with (String v (front +:+ "[" +:+ mult) +:+ "]")
      by (by rewrite app_cons, !app_assoc_str).
    by apply rstrip_app_fixed. }
  unfold parse_attribute, format_attribute. fold body.
  rewrite Hs. unfold take_visibility.
  replace (starts_with_visibility (String v body)) with true by (by simpl in Hv |- *).
  cbn [take drop]. rewrite Hsb.
  assert (contains "[" body = true) as ->.
  { rewrite Hbody, contains_app. change (contains "[" ("[" +:+ mult +:+ "]")) with true.
    apply orb_true_r. }
  assert (endswith "]" body = true) as ->.
  { rewrite Hbody.
    replace (front +:+ "[" +:+ mult +:+ "]") with ((front +:+ "[" +:+ mult) +:+ "]")
      by (by rewrite !app_assoc_str).
    apply endswith_app_char. }
  cbn [andb].
  assert (rfind "[" body = Z.of_nat (String.length front)) as Hidx.
  { rewrite Hbody, rfind_app.
    assert (rfind "[" ("[" +:+ mult +:+ "]") = 0) as ->.
    { change ("[" +:+ mult +:+ "]") with (String "[" (mult +:+ "]")).
      cbn [rfind]. rewrite (rfind_not_contained "[" (mult +:+ "]")); [done|].
      rewrite contains_app, Hmult. done. }
    simpl. lia. }
  rewrite Hidx.
  assert (slice body (Z.of_nat (String.length front) + 1) (-1) = mult) as ->.
  { unfold slice, clamp. rewrite Hbody, !length_app_str. simpl String.length.
    destruct (Z.ltb_spec (Z.of_nat (String.length front) + 1) 0); [lia|].
    change (-1 <? 0) with true. cbv iota.
    rewrite Z.min_l, Z.max_r by lia.
    replace (Z.to_nat (Z.of_nat (String.length front) + 1))
      with (String.length front + 1)%nat by lia.
    rewrite drop_app_length. cbn [drop].
    replace (Z.to_nat _) with (String.length mult) by lia.
    apply take_app_length. }
  assert (slice_to body (Z.of_nat (String.length front)) = front) as ->.
  { unfold slice_to, clamp.
    assert (String.length front ≤ String.length body)%nat
      by (rewrite Hbody, length_app_str; lia).
    destruct (Z.ltb_spec (Z.of_nat (String.length front)) 0); [lia|].
    rewrite Z.min_l by lia. rewrite Nat2Z.id, Hbody. apply take_app_length. }
  rewrite Hfront. unfold front.
  change (": " +:+ typ) with (String ":" (" " +:+ typ)).
  rewrite (split1_app ":" name _ Hcolon).
  rewrite Hname.
  assert (strip (" " +:+ typ) = typ) as ->; [|done].
  unfold strip. change (lstrip (" " +:+ typ)) with (lstrip typ). exact Htyp.
Qed.

Lemma parse_attribute_format_witness :
  parse_attribute (format_attribute "-" "items" "List<Item>" "*")
  = ("-", "items", "List<Item>", normalize_multiplicity "*").
Proof.
  apply (parse_attribute_format "-" "items" "List<Item>" "*"); reflexivity.
Defined.

(** ** Operations without a parameter list *)

Lemma contains_take (c : ascii) (n : nat) (s : string) :
  contains c s = false → contains c (take n s) = false.
Proof.
  revert n. induction s as [|x s IH]; intros [|n]; simpl; try done.
  destruct (Ascii.eqb x c); [done|]. auto.
Qed.

Lemma contains_strip (c : ascii) (s : string) :
  contains c s = false → contains c (strip s) = false.
Proof.
  destruct (strip_split s) as (pre & post & _ & _ & Hs).
  rewrite Hs at 1. rewrite !contains_app.
  intros [_ [H _]%orb_false_iff]%orb_false_iff. done.
Qed.

(** [X9] A raw operation that lacks an opening or a closing parenthesis
    gets an empty parameter list. *)
Theorem parse_operation_without_parentheses (s : string) :
  contains "(" s && contains ")" s = false →
  op_params (parse_operation s) = [].
Proof.
  intros Hs. unfold parse_operation, op_params.
  pose proof (contains_signature_body "(" s) as Hopen.
  pose proof (contains_signature_body ")" s) as Hclose.
  unfold signature_body in *.
  destruct (take_visibility (strip s)) as [vis op]. cbn [snd] in *.
  assert (∀ ret body : string,
    contains "(" body && contains ")" body = false →
    (if negb (contains "(" body) then (vis, body, [], ret)
     else if negb (contains ")" body) then (vis, body, [], ret)
     else match split1 "(" body with
          | (name_part, Some rest) =>
              (vis, strip name_part,
               if String.eqb (strip (split1 ")" rest).1) "" then []
               else concat (map parse_param (split "," (split1 ")" rest).1)),
               ret)
          | (_, None) => (vis, body, [], ret)
          end : operation).1.2 = []) as Hrest.
  { intros ret body Hb.
    destruct (contains "(" body); [|done].
    destruct (contains ")" body); done. }
  assert (contains "(" op && contains ")" op = false) as Hop.
  { apply andb_false_iff in Hs as [H|H]; apply andb_false_iff; auto. }
  assert (∀ k, contains "(" (strip (slice_to op k))
               && contains ")" (strip (slice_to op k)) = false) as Hcut.
  { intros k. unfold slice_to.
    apply andb_false_iff in Hop as [H|H]; apply andb_false_iff; [left|right];
      by apply contains_strip, contains_take. }
  destruct (contains ":" op && (count "(" op =? count ")" op)%nat);
    [destruct (rfind ")" op <? rfind ":" op)|]; by apply Hrest.
Qed.

Lemma parse_operation_without_parentheses_witness :
  op_params (parse_operation "-reset(: void") = [].
Proof. apply (parse_operation_without_parentheses "-reset(: void"). reflexivity. Defined.

(** ** Relationship extraction on arbitrary lists *)

(** [X10] Key construction never raises on a record: the presence test
    that precedes [parse_association] rules out its [KeyError], so the
    extraction of a list reports skipped records only, never a parsing
    error. *)
Theorem record_key_never_raises (rt : rel_type) (rel_list : list record) :
  (∀ rel, ∃ o, record_key rt rel = Ok o)
  ∧ Forall (λ w, ∃ rel, w = SkippingMalformed rt rel)
           (process_relationships rel_list rt).2.
Proof.
  assert (∀ rel, ∃ o, record_key rt rel = Ok o) as Hok.
  { intros rel. destruct (well_formed rt rel) eqn:Hwf.
    - destruct (record_key_well_formed rt rel Hwf) as [key ->]. eauto.
    - rewrite (record_key_malformed rt rel Hwf). eauto. }
  split; [done|]. unfold process_relationships.
  generalize (∅ : gset rel_key). generalize 0%nat.
  induction rel_list as [|rel rest IH]; intros idx acc; [constructor|].
  cbn [process_from]. destruct (Hok rel) as [[key|] ->].
  - apply IH.
  - specialize (IH (S idx) acc).
    destruct (process_from (S idx) rest rt acc) as [res ws]. cbn [snd] in *.
    constructor; eauto.
Qed.

Lemma size_list_to_set_le `{Countable A} (l : list A) :
  (size (list_to_set l : gset A) ≤ length l)%nat.
Proof.
  induction l as [|x l IH]; [by rewrite list_to_set_nil, size_empty|].
  rewrite list_to_set_cons, size_union_alt, size_singleton. simpl.
  apply le_n_S. etrans; [|exact IH].
  apply subseteq_size. intros y [Hy _]%elem_of_difference. done.
Qed.

Lemma process_from_spec (rt : rel_type) (rel_list : list record)
    (idx : nat) (acc : gset rel_key) :
  process_from idx rel_list rt acc =
    (list_to_set (omap (λ rel, match record_key rt rel with
                               | Ok (Some key) => Some key
                               | _ => None
                               end) rel_list) ∪ acc,
     map (SkippingMalformed rt)
         (filter (λ rel, well_formed rt rel = false) rel_list)).
Proof.
  revert idx acc. induction rel_list as [|rel rest IH]; intros idx acc.
  - simpl. by rewrite (left_id_L ∅ (∪)).
  - cbn [process_from omap list_omap]. destruct (well_formed rt rel) eqn:Hwf.
    + destruct (record_key_well_formed rt rel Hwf) as [key Hkey].
      rewrite Hkey, IH. rewrite filter_cons_False by congruence.
      f_equal. by rewrite (assoc_L (∪)), (comm_L (∪) _ {[key]}).
    + rewrite (record_key_malformed rt rel Hwf), IH.
      by rewrite filter_cons_True by done.
Qed.

Lemma elem_of_process_relationships (rt : rel_type) (rel_list : list record)
    (key : rel_key) :
  key ∈ (process_relationships rel_list rt).1
  ↔ ∃ rel, rel ∈ rel_list ∧ record_key rt rel = Ok (Some key).
Proof.
  unfold process_relationships. rewrite process_from_spec. cbn [fst].
  rewrite (right_id_L ∅ (∪)), elem_of_list_to_set, list_elem_of_omap.
  split; intros (rel & Hin & Hkey); exists rel; split; try done.
  - by destruct (record_key rt rel) as [[?|]|]; simplify_eq.
  - by rewrite Hkey.
Qed.

(** [X11] For every list of records, a key is in the extracted set exactly
    when some record of the list yields it, and the warnings are the
    malformed records of the list, one each, in list order. *)
Theorem process_relationships_spec (rt : rel_type) (rel_list : list record) :
  (∀ key, key ∈ (process_relationships rel_list rt).1
          ↔ ∃ rel, rel ∈ rel_list ∧ record_key rt rel = Ok (Some key))
  ∧ (process_relationships rel_list rt).2
    = map (SkippingMalformed rt)
          (filter (λ rel, well_formed rt rel = false) rel_list).
Proof.
  split; [apply elem_of_process_relationships|].
  unfold process_relationships. by rewrite process_from_spec.
Qed.

(** [X12] Every record of a list is either skipped with a warning or
    contributes its key, and equal keys are kept once: the number of keys
    plus the number of warnings is at most the length of the list, and the
    extracted set depends neither on the order of the records nor on
    repetitions. *)
Theorem process_relationships_dedup (rt : rel_type) (l l' : list record) :
  (size (process_relationships l rt).1
   + length (process_relationships l rt).2 ≤ length l)%nat
  ∧ (process_relationships (l ++ l) rt).1 = (process_relationships l rt).1
  ∧ (l ≡ₚ l' → (process_relationships l rt).1 = (process_relationships l' rt).1).
Proof.
  split_and!.
  - unfold process_relationships. rewrite process_from_spec. cbn [fst snd].
    rewrite (right_id_L ∅ (∪)), length_map.
    etrans; [apply Nat.add_le_mono_r, size_list_to_set_le|].
    induction l as [|rel l IH]; [done|].
    cbn [omap list_omap length]. destruct (well_formed rt rel) eqn:Hwf.
    + destruct (record_key_well_formed rt rel Hwf) as [key ->].
      rewrite filter_cons_False by congruence. simpl. lia.
    + rewrite (record_key_malformed rt rel Hwf), filter_cons_True by done.
      simpl. lia.
  - apply set_eq. intros key.
    rewrite !elem_of_process_relationships.
    split.
    + intros (rel & [Hin|Hin]%elem_of_app & Hkey); eauto.
    + intros (rel & Hin & Hkey). exists rel. split; [|done].
      apply elem_of_app. by left.
  - intros Hperm. apply set_eq. intros key.
    rewrite !elem_of_process_relationships.
    by setoid_rewrite Hperm.
Qed.

(** ** Association keys *)

(** [X13] [parse_association] raises [KeyError] for the first missing
    endpoint field, [source] before [target], and returns a key when both
    are present. *)
Theorem parse_association_key_error (assoc : record) :
  (assoc !! "source" = None → parse_association assoc = Raise (KeyError "source"))
  ∧ (is_Some (assoc !! "source") → assoc !! "target" = None →
     parse_association assoc = Raise (KeyError "target"))
  ∧ (is_Some (assoc !! "source") → is_Some (assoc !! "target") →
     ∃ key, parse_association assoc = Ok key).
Proof.
  unfold parse_association, getitem. split_and!.
  - by intros ->.
  - by intros [src ->] ->.
  - intros [src ->] [tgt ->]. simpl. eauto.
Qed.

Lemma ltb_false_leb (a b : string) : String.ltb a b = false → String.leb b a = true.
Proof.
  unfold String.ltb, String.leb. rewrite (String.compare_antisym a b).
  by destruct (String.compare b a).
Qed.

Lemma ltb_true_leb (a b : string) : String.ltb a b = true → String.leb a b = true.
Proof. unfold String.ltb, String.leb. by destruct (String.compare a b). Qed.

(** [X14] For a record with both endpoints, the endpoint pair of the key
    is the pair (source, target) or its reversal; with direction
    ["bidirectional"] its first name is lexicographically at most its
    second, with any other or no direction it is (source, target) as given.
    The two multiplicities are the normalised target and source
    multiplicities, in that order, whatever the direction. *)
Theorem parse_association_pair (assoc : record) (src tgt : string) :
  assoc !! "source" = Some src →
  assoc !! "target" = Some tgt →
  ∃ a b,
    parse_association assoc =
      Ok ((a, b),
          normalize_multiplicity (default "" (assoc !! "multiplicity_target")),
          normalize_multiplicity (default "" (assoc !! "multiplicity_source")))
    ∧ ((a, b) = (src, tgt) ∨ (a, b) = (tgt, src))
    ∧ (assoc !! "direction" = Some "bidirectional" → String.leb a b = true)
    ∧ (assoc !! "direction" ≠ Some "bidirectional" → (a, b) = (src, tgt)).
Proof.
  intros Hsrc Htgt. unfold parse_association, getitem. rewrite Hsrc, Htgt. simpl.
  destruct (decide (assoc !! "direction" = Some "bidirectional")) as [Hd|Hd].
  - rewrite bool_decide_eq_true_2 by done.
    destruct (String.ltb tgt src) eqn:Hlt.
    + exists tgt, src. split_and!; auto using ltb_true_leb; done.
    + exists src, tgt. split_and!; auto using ltb_false_leb; done.
  - rewrite bool_decide_eq_false_2 by done.
    exists src, tgt. split_and!; auto; done.
Qed.

Lemma parse_association_pair_witness :
  ∃ a b,
    parse_association (assoc_record "Order" "Customer" "bidirectional" "*" "1") =
      Ok ((a, b),
          normalize_multiplicity
            (default "" (assoc_record "Order" "Customer" "bidirectional" "*" "1"
                         !! "multiplicity_target")),
          normalize_multiplicity
            (default "" (assoc_record "Order" "Customer" "bidirectional" "*" "1"
                         !! "multiplicity_source")))
    ∧ ((a, b) = ("Order", "Customer") ∨ (a, b) = ("Customer", "Order"))
    ∧ (assoc_record "Order" "Customer" "bidirectional" "*" "1" !! "direction"
       = Some "bidirectional" → String.leb a b = true)
    ∧ (assoc_record "Order" "Customer" "bidirectional" "*" "1" !! "direction"
       ≠ Some "bidirectional" → (a, b) = ("Order", "Customer")).
Proof.
  apply (parse_association_pair
           (assoc_record "Order" "Customer" "bidirectional" "*" "1"));
    reflexivity.
Defined.

(** [X15] The key of a record has the shape of its relationship type and
    carries one multiplicity per multiplicity field the type reads; each is
    in canonical form (trimmed, no short form), and it is ["1..1"] when the
    field is absent from the record. *)
Theorem record_key_multiplicities (rt : rel_type) (rel : record) (key : rel_key) :
  record_key rt rel = Ok (Some key) →
  Forall2 (λ m field,
             trimmed m = true ∧ is_shorthand m = false
             ∧ (rel !! field = None → m = "1..1"))
          (key_multiplicities key) (multiplicity_fields rt).
Proof.
  assert (∀ field dflt,
    normalize_multiplicity dflt = "1..1" →
    let m := normalize_multiplicity (default dflt (rel !! field)) in
    trimmed m = true ∧ is_shorthand m = false
    ∧ (rel !! field = None → m = "1..1")) as Hm.
  { intros field dflt Hd. cbv zeta.
    destruct (normalize_multiplicity_result (default dflt (rel !! field))) as [Ht Hs].
    split_and!; [done..|]. by intros ->. }
  destruct rt; simpl;
    repeat match goal with
           | |- context [rel !! ?k] =>
               lazymatch k with
               | "source" => destruct (rel !! k) eqn:?
               | "target" => destruct (rel !! k) eqn:?
               | "whole" => destruct (rel !! k) eqn:?
               | "part" => destruct (rel !! k) eqn:?
               | "dependent" => destruct (rel !! k) eqn:?
               | "supplier" => destruct (rel !! k) eqn:?
               | "parent" => destruct (rel !! k) eqn:?
               | "child" => destruct (rel !! k) eqn:?
               | "interface" => destruct (rel !! k) eqn:?
               | "implementation" => destruct (rel !! k) eqn:?
               end
           end; try done;
    try (intros [= <-]; repeat constructor; by apply Hm).
  unfold parse_association, getitem.
  repeat match goal with H : rel !! _ = Some _ |- _ => rewrite H; clear H end.
  simpl. intros [= <-]. repeat constructor; by apply Hm.
Qed.

Lemma record_key_multiplicities_witness :
  Forall2 (λ m field,
             trimmed m = true ∧ is_shorthand m = false
             ∧ (({[ "whole" := "Car"; "part" := "Wheel";
                    "multiplicity_part" := " * " ]} : record) !! field = None
                → m = "1..1"))
          (key_multiplicities (WholePartKey ("Car", "Wheel", "1..1", "0..*")))
          (multiplicity_fields composition).
Proof.
  apply (record_key_multiplicities composition
           {[ "whole" := "Car"; "part" := "Wheel"; "multiplicity_part" := " * " ]}).
  reflexivity.
Defined.

(** ** Counts and listings of [compute_metrics] *)

Lemma match_elements_subseteq (trues preds : gmap string element) :
  match_elements trues preds ⊆ dom trues ∩ dom preds.
Proof.
  intros name (t & p & Ht & Hp & _)%elem_of_match_elements.
  apply elem_of_intersection. split; apply elem_of_dom; eauto.
Qed.

Lemma match_elements_sym (trues preds : gmap string element) :
  match_elements preds trues = match_elements trues preds.
Proof.
  apply set_eq. intros name. rewrite !elem_of_match_elements.
  split; intros (a & b & Ha & Hb & Hsame); exists b, a; split_and!; try done;
    apply same_content_true; apply same_content_true in Hsame as [-> ->]; done.
Qed.

Lemma match_elements_refl (elems : gmap string element) :
  match_elements elems elems = dom elems.
Proof.
  apply set_eq. intros name. rewrite elem_of_match_elements, elem_of_dom. split.
  - intros (t & _ & Ht & _). eauto.
  - intros [t Ht]. exists t, t. split_and!; [done..|]. by apply same_content_true.
Qed.

Lemma sum_list_le {A} (f g : A → nat) (l : list A) :
  (∀ x, f x ≤ g x)%nat → (sum_list (map f l) ≤ sum_list (map g l))%nat.
Proof.
  intros Hfg. induction l as [|x l IH]; simpl; [done|].
  specialize (Hfg x). lia.
Qed.

Lemma size_load_relationships (data : document) (rt : rel_type) :
  (size (load_relationships data rt) ≤ length (relationships data rt))%nat.
Proof.
  unfold load_relationships, process_relationships.
  rewrite process_from_spec. cbn [fst]. rewrite (right_id_L ∅ (∪)).
  etrans; [apply size_list_to_set_le|].
  induction (relationships data rt) as [|rel l IH]; [done|].
  cbn [omap list_omap length].
  destruct (record_key rt rel) as [[key|]|]; simpl; lia.
Qed.

(** [X16] In every report the matched counts are bounded by the true and
    by the predicted counts, for elements and for relationships, and a side's
    relationship count is at most its number of relationship records. *)
Theorem compute_metrics_count_bounds (true_data pred_data : document) :
  ∃ rep,
    (compute_metrics true_data pred_data).2 = Ok rep
    ∧ (matched_classes_and_enums (report_counts rep)
       ≤ true_classes_and_enums (report_counts rep))%nat
    ∧ (matched_classes_and_enums (report_counts rep)
       ≤ predicted_classes_and_enums (report_counts rep))%nat
    ∧ (matched_relationships (report_counts rep)
       ≤ true_relationships (report_counts rep))%nat
    ∧ (matched_relationships (report_counts rep)
       ≤ predicted_relationships (report_counts rep))%nat
    ∧ (true_relationships (report_counts rep) ≤ record_count true_data)%nat
    ∧ (predicted_relationships (report_counts rep) ≤ record_count pred_data)%nat.
Proof.
  destruct (compute_metrics_returns true_data pred_data)
    as (rep & Hrep & _ & Htc & Hpc & Hmc & Htr & Hpr & Hmr & _).
  exists rep. split; [done|]. rewrite Htc, Hpc, Hmc, Htr, Hpr, Hmr.
  pose proof (match_elements_subseteq (load_elements true_data)
                (load_elements pred_data)) as Hsub.
  split_and!.
  - rewrite <- (size_dom (load_elements true_data)).
    apply subseteq_size. intros n Hn. by apply Hsub, elem_of_intersection in Hn as [? _].
  - rewrite <- (size_dom (load_elements pred_data)).
    apply subseteq_size. intros n Hn. by apply Hsub, elem_of_intersection in Hn as [_ ?].
  - apply sum_list_le. intros rt. apply subseteq_size, intersection_subseteq_l.
  - apply sum_list_le. intros rt. apply subseteq_size, intersection_subseteq_r.
  - apply sum_list_le, size_load_relationships.
  - apply sum_list_le, size_load_relationships.
Qed.

Lemma sorted_Permutation (names : gset string) : sorted names ≡ₚ elements names.
Proof. apply merge_sort_Permutation. Qed.

Lemma sorted_Sorted (names : gset string) : Sorted String.le (sorted names).
Proof. apply (Sorted_merge_sort String.le). Qed.

Lemma sorted_NoDup (names : gset string) : NoDup (sorted names).
Proof. rewrite sorted_Permutation. apply NoDup_elements. Qed.

Lemma sorted_split (part whole : gset string) :
  part ⊆ whole → sorted part ++ sorted (whole ∖ part) ≡ₚ sorted whole.
Proof.
  intros Hsub. rewrite !sorted_Permutation.
  rewrite (union_difference_L part whole Hsub) at 2.
  rewrite elements_disj_union; [done|].
  intros n Hn [_ Hnot]%elem_of_difference. done.
Qed.

(** [X17] The three name lists of the report are sorted in ascending
    string order and free of duplicates; the matched and the mismatched
    names together are exactly the names of the ground truth, and the
    matched and the extra names together are exactly the names of the
    prediction. *)
Theorem class_matching_lists (true_data pred_data : document) :
  ∃ rep,
    (compute_metrics true_data pred_data).2 = Ok rep
    ∧ Forall (λ l, Sorted String.le l ∧ NoDup l)
        [matched (detailed_class_matching rep);
         mismatched_in_ground_truth (detailed_class_matching rep);
         extra_in_prediction (detailed_class_matching rep)]
    ∧ matched (detailed_class_matching rep)
      ++ mismatched_in_ground_truth (detailed_class_matching rep)
      ≡ₚ sorted (dom (load_elements true_data))
    ∧ matched (detailed_class_matching rep)
      ++ extra_in_prediction (detailed_class_matching rep)
      ≡ₚ sorted (dom (load_elements pred_data)).
Proof.
  destruct (compute_metrics_returns true_data pred_data)
    as (rep & Hrep & Hdet & _).
  exists rep. rewrite Hdet. cbn.
  pose proof (match_elements_subseteq (load_elements true_data)
                (load_elements pred_data)) as Hsub.
  split_and!; [done| |apply sorted_split|apply sorted_split].
  - repeat constructor; auto using sorted_Sorted, sorted_NoDup.
  - intros n Hn. by apply Hsub, elem_of_intersection in Hn as [? _].
  - intros n Hn. by apply Hsub, elem_of_intersection in Hn as [_ ?].
Qed.

Lemma sorted_empty : sorted ∅ = [].
Proof. unfold sorted. by rewrite elements_empty. Qed.

(** [X18] A document scored against itself matches completely: no name is
    listed as mismatched or extra, and the matched counts equal the true and
    the predicted counts, for elements and for relationships. *)
Theorem compute_metrics_self (data : document) :
  ∃ rep,
    (compute_metrics data data).2 = Ok rep
    ∧ mismatched_in_ground_truth (detailed_class_matching rep) = []
    ∧ extra_in_prediction (detailed_class_matching rep) = []
    ∧ matched (detailed_class_matching rep) = sorted (dom (load_elements data))
    ∧ matched_classes_and_enums (report_counts rep)
      = true_classes_and_enums (report_counts rep)
    ∧ predicted_classes_and_enums (report_counts rep)
      = true_classes_and_enums (report_counts rep)
    ∧ matched_relationships (report_counts rep)
      = true_relationships (report_counts rep)
    ∧ predicted_relationships (report_counts rep)
      = true_relationships (report_counts rep).
Proof.
  destruct (compute_metrics_returns data data)
    as (rep & Hrep & Hdet & Htc & Hpc & Hmc & Htr & Hpr & Hmr & _).
  exists rep. split; [exact Hrep|].
  rewrite Hdet, Htc, Hpc, Hmc, Htr, Hpr, Hmr.
  cbv zeta. cbn [matched mismatched_in_ground_truth extra_in_prediction].
  rewrite match_elements_refl.
  rewrite (difference_diag_L (dom (load_elements data))), sorted_empty.
  split_and!; try done.
  - by rewrite size_dom.
  - f_equal. apply map_ext. intros rt.
    by rewrite (idemp_L (∩) (load_relationships data rt)).
Qed.

Lemma calc_prf_fields (true_n pred_n match_n : nat) (m : metrics) :
  calc_prf true_n pred_n match_n = Ok m →
  ∃ p r, ratio match_n pred_n = Ok p ∧ ratio match_n true_n = Ok r
         ∧ precision m = round4 p ∧ recall m = round4 r.
Proof.
  unfold calc_prf.
  destruct (ratio match_n pred_n) as [p|]; [|done].
  destruct (ratio match_n true_n) as [r|]; [|done]. simpl.
  destruct (harmonic p r) as [f|]; [|done]. simpl.
  intros [= <-]. exists p, r. by split_and!.
Qed.

Lemma calc_prf_swap (true_n pred_n match_n : nat) (m m' : metrics) :
  calc_prf true_n pred_n match_n = Ok m →
  calc_prf pred_n true_n match_n = Ok m' →
  precision m' = recall m ∧ recall m' = precision m.
Proof.
  intros (p & r & Hp & Hr & -> & ->)%calc_prf_fields
         (p' & r' & Hp' & Hr' & -> & ->)%calc_prf_fields.
  rewrite Hr in Hp'. rewrite Hp in Hr'. by simplify_eq.
Qed.

(** [X19] Exchanging ground truth and prediction exchanges the true and
    the predicted counts, keeps the matched counts, and exchanges precision
    and recall in each of the three metric triples. *)
Theorem compute_metrics_swap (true_data pred_data : document) :
  ∃ rep rep',
    (compute_metrics true_data pred_data).2 = Ok rep
    ∧ (compute_metrics pred_data true_data).2 = Ok rep'
    ∧ true_classes_and_enums (report_counts rep')
      = predicted_classes_and_enums (report_counts rep)
    ∧ true_relationships (report_counts rep')
      = predicted_relationships (report_counts rep)
    ∧ matched_classes_and_enums (report_counts rep')
      = matched_classes_and_enums (report_counts rep)
    ∧ matched_relationships (report_counts rep')
      = matched_relationships (report_counts rep)
    ∧ matched (detailed_class_matching rep') = matched (detailed_class_matching rep)
    ∧ Forall (λ '(m, m'), precision m' = recall m ∧ recall m' = precision m)
        [(class_metrics rep, class_metrics rep');
         (relationship_metrics rep, relationship_metrics rep');
         (overall_metrics rep, overall_metrics rep')].
Proof.
  destruct (compute_metrics_returns true_data pred_data)
    as (rep & Hrep & Hdet & Htc & Hpc & Hmc & Htr & Hpr & Hmr & Hcm & Hrm & Hom).
  destruct (compute_metrics_returns pred_data true_data)
    as (rep' & Hrep' & Hdet' & Htc' & Hpc' & Hmc' & Htr' & Hpr' & Hmr' & Hcm' & Hrm' & Hom').
  assert (matched_relationships (report_counts rep')
          = matched_relationships (report_counts rep)) as Hmr_eq.
  { rewrite Hmr, Hmr'. f_equal. apply map_ext. intros rt. by rewrite (comm_L (∩)). }
  assert (matched_classes_and_enums (report_counts rep')
          = matched_classes_and_enums (report_counts rep)) as Hmc_eq
    by (by rewrite Hmc, Hmc', match_elements_sym).
  exists rep, rep'. split_and!; try done; try congruence.
  - rewrite Hdet, Hdet'. cbn. by rewrite match_elements_sym.
  - rewrite Hmc_eq, Htc', Hpc', <- Hpc, <- Htc in Hcm'.
    rewrite Hmr_eq, Htr', Hpr', <- Hpr, <- Htr in Hrm'.
    rewrite Hmc_eq, Hmr_eq, Htc', Hpc', Htr', Hpr', <- Hpc, <- Htc, <- Hpr, <- Htr in Hom'.
    do 3 (constructor; [eapply calc_prf_swap; eassumption|]). constructor.
Qed.

(** ** The element universe of a document *)

Lemma fold_add_class_lookup_skip (l : list class_decl)
    (elems : gmap string element) (n : string) :
  n ∉ map cls_name l → fold_left add_class l elems !! n = elems !! n.
Proof.
  revert elems. induction l as [|c l IH]; intros elems Hn; [done|].
  simpl in *. apply not_elem_of_cons in Hn as [Hc Hl].
  rewrite IH by done. unfold add_class. by rewrite lookup_insert_ne.
Qed.

(** [X20] The names of the element universe are exactly the declared
    names (classes and enumerations); the element count is at most the
    number of declarations, and equals it when no name is declared twice. *)
Theorem load_elements_names (data : document) :
  (∀ n, is_Some (load_elements data !! n) ↔ n ∈ declared_names data)
  ∧ (size (load_elements data)
     ≤ length (classes data) + length (enumerations data))%nat
  ∧ (NoDup (declared_names data) →
     size (load_elements data)
     = (length (classes data) + length (enumerations data))%nat).
Proof.
  assert (length (declared_names data)
          = (length (classes data) + length (enumerations data))%nat) as Hlen
    by (unfold declared_names; by rewrite length_app, !length_map).
  split_and!.
  - intros n. by rewrite <- elem_of_dom, dom_load_elements, elem_of_list_to_set.
  - rewrite size_load_elements, <- Hlen. apply size_list_to_set_le.
  - intros Hnd. rewrite size_load_elements, <- Hlen. by apply size_list_to_set.
Qed.

(** [X21] A class keeps its entry when it is the last class of its name
    and no enumeration has that name: the entry then holds the parsed
    attributes and operations of that class. *)
Theorem load_elements_class (data : document) (cls : class_decl)
    (before after : list class_decl) :
  classes data = before ++ cls :: after →
  cls_name cls ∉ map cls_name after →
  cls_name cls ∉ map enum_name (enumerations data) →
  load_elements data !! cls_name cls =
    Some {| type := TClass;
            attrs := list_to_set (map parse_attribute (cls_attributes cls));
            ops := list_to_set (map parse_operation (cls_operations cls)) |}.
Proof.
  intros Hclasses Hlast Henum. unfold load_elements.
  rewrite fold_add_enum_lookup_notin by done.
  rewrite Hclasses, fold_left_app. simpl.
  rewrite fold_add_class_lookup_skip by done.
  unfold add_class at 1. by rewrite lookup_insert_eq.
Qed.

Lemma load_elements_class_witness :
  load_elements car_truth !! "Car" =
    Some {| type := TClass;
            attrs := list_to_set (map parse_attribute ["+speed: int"]);
            ops := list_to_set (map parse_operation []) |}.
Proof.
  apply (load_elements_class car_truth
           {| cls_name := "Car"; cls_attributes := ["+speed: int"];
              cls_operations := [] |} [] []).
  - reflexivity.
  - apply not_elem_of_nil.
  - apply not_elem_of_nil.
Defined.

Lemma list_to_set_same_members `{Countable A} (l1 l2 : list A) :
  (∀ x, x ∈ l1 ↔ x ∈ l2) → (list_to_set l1 : gset A) = list_to_set l2.
Proof.
  intros Hmem. apply set_eq. intros x. by rewrite !elem_of_list_to_set.
Qed.

Lemma map_same_members {A B} (f : A → B) (l1 l2 : list A) :
  (∀ x, x ∈ l1 ↔ x ∈ l2) → ∀ y, y ∈ map f l1 ↔ y ∈ map f l2.
Proof.
  intros Hmem y. rewrite !list_elem_of_fmap.
  split; intros (x & -> & Hx); exists x; split; try done; by apply Hmem.
Qed.

(** [X22] Matching does not see the order or the repetition of raw
    attributes and operations: two classes of the same name whose raw
    attribute lists have the same members, and whose raw operation lists
    have the same members, are matched. *)
Theorem matching_ignores_order (true_data pred_data : document)
    (name : string) (c1 c2 : class_decl) :
  load_elements true_data !! name = Some (class_element c1) →
  load_elements pred_data !! name = Some (class_element c2) →
  list_to_set (cls_attributes c1) =@{gset string} list_to_set (cls_attributes c2) →
  list_to_set (cls_operations c1) =@{gset string} list_to_set (cls_operations c2) →
  ∃ rep,
    (compute_metrics true_data pred_data).2 = Ok rep
    ∧ name ∈ matched (detailed_class_matching rep).
Proof.
  intros Ht Hp Hattrs Hops.
  destruct (compute_metrics_returns true_data pred_data)
    as (rep & Hrep & Hdet & _).
  exists rep. split; [done|]. rewrite Hdet. cbv zeta. cbn [matched].
  apply elem_of_sorted, elem_of_match_elements.
  exists (class_element c1), (class_element c2). split_and!; [done..|].
  apply same_content_true. unfold class_element. cbn [attrs ops].
  split; apply list_to_set_same_members, map_same_members; intros x;
    rewrite <- !(elem_of_list_to_set (C:=gset string)).
  - by rewrite Hattrs.
  - by rewrite Hops.
Qed.

Lemma matching_ignores_order_witness :
  ∃ rep,
    (compute_metrics (point_document point_class_a)
                     (point_document point_class_b)).2 = Ok rep
    ∧ "Point" ∈ matched (detailed_class_matching rep).
Proof.
  apply (matching_ignores_order (point_document point_class_a)
           (point_document point_class_b) "Point" point_class_a point_class_b).
  all: vm_compute; reflexivity.
Defined.

(** ** Rendering an operation and parsing it back *)

Section operation_round_trip.
Implicit Types (s t : string) (c : ascii) (q : string * string).

Lemma no_char_of_contains excluded s c :
  no_char_of excluded s = true → contains c excluded = true → contains c s = false.
Proof.
  intros Hs Hc. induction s as [|x s IH]; [done|]. simpl in *.
  apply andb_true_iff in Hs as [Hx Hs].
  destruct (Ascii.eqb_spec x c) as [->|_]; [by rewrite Hc in Hx|]. auto.
Qed.

Lemma app_nil_r_s s : s +:+ "" = s.
Proof. induction s as [|x s IH]; [done|]. by rewrite app_cons, IH. Qed.

Lemma count_not_contained c s : contains c s = false → count c s = 0%nat.
Proof.
  induction s as [|x s IH]; [done|]. simpl.
  destruct (Ascii.eqb x c); [done|]. auto.
Qed.

Lemma word_spec s :
  word s = true →
  strip s = s ∧ s ≠ "" ∧ contains ":" s = false ∧ contains "(" s = false
  ∧ contains ")" s = false ∧ contains "," s = false.
Proof.
  unfold word. intros [[Ht Hne]%andb_true_iff Hc]%andb_true_iff.
  apply trimmed_true in Ht. apply negb_true_iff, String.eqb_neq in Hne.
  split_and!; try done; by apply (no_char_of_contains _ _ _ Hc).
Qed.

Lemma type_word_spec s :
  type_word s = true →
  strip s = s ∧ s ≠ "" ∧ contains "(" s = false
  ∧ contains ")" s = false ∧ contains "," s = false.
Proof.
  unfold type_word. intros [[Ht Hne]%andb_true_iff Hc]%andb_true_iff.
  apply trimmed_true in Ht. apply negb_true_iff, String.eqb_neq in Hne.
  split_and!; try done; by apply (no_char_of_contains _ _ _ Hc).
Qed.

Lemma strip_space_cons s : strip (String " " s) = strip s.
Proof. reflexivity. Qed.

Lemma contains_cons_ne c x s : c ≠ x → contains c (String x s) = contains c s.
Proof.
  intros Hc. cbn [contains].
  by rewrite (proj2 (Ascii.eqb_neq x c)) by congruence.
Qed.

Lemma format_param_contains c q :
  c ≠ ":"%char → c ≠ " "%char →
  contains c q.1 = false → contains c q.2 = false →
  contains c (format_param q) = false.
Proof.
  intros Hc1 Hc2 H1 H2. unfold format_param.
  change (": " +:+ q.2) with (String ":" (String " " q.2)).
  by rewrite contains_app, !contains_cons_ne, H1, H2.
Qed.

Lemma format_param_strip q :
  well_formed_param q = true → strip (format_param q) = format_param q.
Proof.
  intros [(? & ? & _)%word_spec (? & ? & _)%type_word_spec]%andb_true_iff.
  by apply strip_fixed_between.
Qed.

Lemma format_param_not_empty q :
  well_formed_param q = true → format_param q ≠ "".
Proof.
  intros [(_ & Hne & _)%word_spec _]%andb_true_iff. unfold format_param.
  destruct q.1; [done|]. by rewrite app_cons.
Qed.

Lemma parse_param_format q :
  well_formed_param q = true → parse_param (format_param q) = [q].
Proof.
  intros Hq. unfold parse_param. rewrite (format_param_strip q Hq).
  rewrite (proj2 (String.eqb_neq _ _) (format_param_not_empty q Hq)).
  apply andb_true_iff in Hq as [(Hn & _ & Hcolon & _)%word_spec (Ht & _)%type_word_spec].
  unfold format_param. change (": " +:+ q.2) with (String ":" (String " " q.2)).
  rewrite (split1_app ":" q.1 _ Hcolon), Hn, strip_space_cons, Ht.
  by destruct q.
Qed.

Lemma parse_param_space_format q :
  well_formed_param q = true → parse_param (String " " (format_param q)) = [q].
Proof.
  intros Hq. rewrite <- (parse_param_format q Hq).
  unfold parse_param. by rewrite strip_space_cons.
Qed.

Lemma split_not_contained c s : contains c s = false → split c s = [s].
Proof.
  induction s as [|x s IH]; [done|]. simpl.
  destruct (Ascii.eqb x c); [done|]. intros Hs. by rewrite (IH Hs).
Qed.

Lemma split_app c a b :
  contains c a = false → split c (a +:+ String c b) = a :: split c b.
Proof.
  induction a as [|x a IH].
  - intros _. rewrite app_nil_l. simpl. by rewrite Ascii.eqb_refl.
  - rewrite app_cons. simpl. destruct (Ascii.eqb x c); [done|].
    intros Ha. by rewrite (IH Ha).
Qed.

Lemma format_param_no_comma q :
  well_formed_param q = true → contains "," (format_param q) = false.
Proof.
  intros [(_ & _ & _ & _ & _ & H1)%word_spec
          (_ & _ & _ & _ & H2)%type_word_spec]%andb_true_iff.
  by apply format_param_contains.
Qed.

Lemma split_join_params q (rest : list (string * string)) :
  forallb well_formed_param (q :: rest) = true →
  split "," (join_params (q :: rest))
  = format_param q :: map (λ q', String " " (format_param q')) rest.
Proof.
  revert q. induction rest as [|q' rest IH]; intros q Hall.
  - simpl in *. rewrite andb_true_r in Hall.
    by apply split_not_contained, format_param_no_comma.
  - cbn [forallb] in Hall. apply andb_true_iff in Hall as [Hq Hrest].
    change (join_params (q :: q' :: rest))
      with (format_param q +:+ String "," (String " " (join_params (q' :: rest)))).
    rewrite split_app by (by apply format_param_no_comma).
    f_equal. cbn [split]. change (Ascii.eqb " " ",") with false. cbv iota.
    rewrite (IH q' Hrest). done.
Qed.

Lemma concat_parse_params (ps : list (string * string)) :
  forallb well_formed_param ps = true →
  concat (map parse_param (map (λ q, String " " (format_param q)) ps)) = ps.
Proof.
  induction ps as [|q ps IH]; [done|]. cbn [forallb map concat].
  intros [Hq Hps]%andb_true_iff.
  by rewrite (parse_param_space_format q Hq), (IH Hps).
Qed.

(** The parameter list read back from the joined parameters. *)
Lemma params_of_join (ps : list (string * string)) :
  forallb well_formed_param ps = true →
  (if String.eqb (strip (join_params ps)) "" then []
   else concat (map parse_param (split "," (join_params ps)))) = ps.
Proof.
  intros Hall. destruct ps as [|q rest]; [done|].
  assert (well_formed_param q = true) as Hq
    by (by apply andb_true_iff in Hall as [? _]).
  assert (strip (join_params (q :: rest)) ≠ "") as Hne.
  { pose proof (format_param_not_empty q Hq) as Hfq.
    pose proof (strip_fixed_lstrip _ (format_param_strip q Hq)) as Hl.
    assert (∃ t, join_params (q :: rest) = format_param q +:+ t) as [t ->].
    { destruct rest; [exists ""; simpl; by rewrite app_nil_r_s|eauto]. }
    destruct (format_param q) as [|x f]; [done|].
    simpl in Hl. destruct (isspace x) eqn:Hx.
    - pose proof (lstrip_length f) as Hlen. rewrite Hl in Hlen. simpl in Hlen. lia.
    - unfold strip. rewrite app_cons. cbn [lstrip]. rewrite Hx. simpl.
      rewrite Hx. by destruct (rstrip (f +:+ t)). }
  rewrite (proj2 (String.eqb_neq _ _) Hne).
  rewrite (split_join_params q rest Hall). cbn [map concat].
  rewrite (parse_param_format q Hq). f_equal.
  apply concat_parse_params. by apply andb_true_iff in Hall as [_ ?].
Qed.

Lemma join_params_contains c (ps : list (string * string)) :
  c ≠ ":"%char → c ≠ " "%char → c ≠ ","%char →
  Forall (λ q, contains c q.1 = false ∧ contains c q.2 = false) ps →
  contains c (join_params ps) = false.
Proof.
  intros Hc1 Hc2 Hc3. induction 1 as [|q rest [H1 H2] Hrest IH]; [done|].
  destruct rest as [|q' rest]; [by apply format_param_contains|].
  change (join_params (q :: q' :: rest))
    with (format_param q +:+ String "," (String " " (join_params (q' :: rest)))).
  by rewrite contains_app, !contains_cons_ne, format_param_contains, IH.
Qed.

End operation_round_trip.

Lemma forallb_params_no_char (c : ascii) (params : list (string * string)) :
  c = "("%char ∨ c = ")"%char →
  forallb well_formed_param params = true →
  Forall (λ q, contains c q.1 = false ∧ contains c q.2 = false) params.
Proof.
  intros Hc Hall. apply Forall_forall. intros q Hq.
  assert (well_formed_param q = true) as Hwf.
  { rewrite forallb_forall in Hall. by apply Hall, list_elem_of_In. }
  apply andb_true_iff in Hwf as [Hn Ht]. unfold word, type_word in *.
  apply andb_true_iff in Hn as [_ Hn]. apply andb_true_iff in Ht as [_ Ht].
  destruct Hc as [-> | ->].
  - split; by eapply no_char_of_contains.
  - split; by eapply no_char_of_contains.
Qed.

(** [X23] Parsing a rendered operation gives its parts back: for a
    marker [v], a name and a return type that are trimmed, non-empty and
    free of colons, parentheses and commas, and parameters whose names are
    such words and whose types are such words except that they may contain
    colons, the string [v name(n1: t1, n2: t2, ...): ret] parses to the
    marker, the name, the parameters in the same order and the return
    type. *)
Theorem parse_operation_format (v : ascii) (name : string)
    (params : list (string * string)) (ret : string) :
  starts_with_visibility (String v "") = true →
  word name = true →
  forallb well_formed_param params = true →
  word ret = true →
  parse_operation (format_operation v name params ret)
  = (String v "", name, params, ret).
Proof.
  intros Hv (Hname & Hnn & _ & Hn_open & Hn_close & _)%word_spec Hparams
         (Hret & Hrn & Hr_colon & Hr_open & Hr_close & _)%word_spec.
  set (P := join_params params).
  assert (contains "(" P = false) as HP_open
    by (apply join_params_contains; try done; apply forallb_params_no_char; auto).
  assert (contains ")" P = false) as HP_close
    by (apply join_params_contains; try done; apply forallb_params_no_char; auto).
  set (tail := String ":" (String " " ret)).
  set (head := name +:+ String "(" P).
  set (sig := head +:+ ")").
  set (body := name +:+ "(" +:+ P +:+ "): " +:+ ret).
  assert (body = sig +:+ tail) as Hbody
    by (unfold body, sig, head, tail; by rewrite !app_assoc_str).
  assert (body = head +:+ String ")" tail) as Hbody'
    by (unfold body, head, tail; by rewrite !app_assoc_str).
  assert (strip sig = sig) as Hsig.
  { unfold sig, head. rewrite app_assoc_str. by apply strip_fixed_between. }
  assert (strip body = body) as Hsb.
  { unfold body.
    replace ("(" +:+ P +:+ "): " +:+ ret) with (("(" +:+ P +:+ "): ") +:+ ret)
      by (by rewrite !app_assoc_str).
    by apply strip_fixed_between. }
  assert (strip (String v body) = String v body) as Hs.
  { unfold strip. cbn [lstrip]. rewrite (marker_not_space v Hv).
    unfold body.
    replace (String v (name +:+ "(" +:+ P +:+ "): " +:+ ret))
      with (String v (name +:+ "(" +:+ P +:+ "): ") +:+ ret)
      by (by rewrite app_cons, !app_assoc_str).
    apply rstrip_app_fixed; [by apply strip_fixed_rstrip|done]. }
  assert (contains ")" tail = false) as Htail_close
    by (unfold tail; by rewrite !contains_cons_ne).
  assert (contains "(" tail = false) as Htail_open
    by (unfold tail; by rewrite !contains_cons_ne).
  assert (rfind ":" body = Z.of_nat (String.length sig)) as Hlc.
  { rewrite Hbody, rfind_app. unfold tail at 1 2. cbn [rfind].
    rewrite (rfind_not_contained ":" ret Hr_colon). simpl. lia. }
  assert (rfind ")" body = Z.of_nat (String.length head)) as Hlp.
  { rewrite Hbody', rfind_app. cbn [rfind].
    rewrite (rfind_not_contained ")" tail Htail_close). simpl. lia. }
  assert (String.length sig = S (String.length head)) as Hlen
    by (unfold sig; rewrite length_app_str; simpl; lia).
  assert (count "(" body = 1%nat ∧ count ")" body = 1%nat) as [Hco Hcc].
  { rewrite Hbody'. unfold head. rewrite !count_app. cbn [count].
    rewrite !(count_not_contained _ name), !(count_not_contained _ P),
      !(count_not_contained _ tail) by done. done. }
  unfold parse_operation, format_operation. fold P. fold body.
  rewrite Hs. unfold take_visibility.
  replace (starts_with_visibility (String v body)) with true by (by simpl in Hv |- *).
  cbn [take drop]. rewrite Hsb.
  assert (contains ":" body = true) as ->.
  { rewrite Hbody, contains_app. unfold tail. simpl. apply orb_true_r. }
  rewrite Hco, Hcc, Hlc, Hlp. cbn [andb Nat.eqb].
  rewrite (proj2 (Z.ltb_lt _ _)) by lia.
  assert (strip (slice_from body (Z.of_nat (String.length sig) + 1)) = ret) as ->.
  { rewrite slice_from_drop by (rewrite Hbody, length_app_str; simpl; lia).
    replace (Z.to_nat (Z.of_nat (String.length sig) + 1))
      with (String.length sig + 1)%nat by lia.
    rewrite Hbody, drop_app_length. exact Hret. }
  assert (strip (slice_to body (Z.of_nat (String.length sig))) = sig) as ->.
  { unfold slice_to, clamp.
    destruct (Z.ltb_spec (Z.of_nat (String.length sig)) 0); [lia|].
    rewrite Z.min_l by (rewrite Hbody, length_app_str; lia).
    by rewrite Nat2Z.id, Hbody, take_app_length. }
  assert (contains "(" sig = true) as ->.
  { unfold sig, head. rewrite !contains_app. simpl. rewrite orb_true_r. done. }
  assert (contains ")" sig = true) as ->.
  { unfold sig. rewrite contains_app. simpl. apply orb_true_r. }
  cbn [negb].
  assert (split1 "(" sig = (name, Some (P +:+ ")"))) as ->.
  { unfold sig, head. rewrite app_assoc_str. by apply split1_app. }
  rewrite (split1_app ")" P "" HP_close). cbn [fst].
  rewrite Hname. unfold P. by rewrite (params_of_join params Hparams).
Qed.

Lemma parse_operation_format_witness :
  parse_operation
    (format_operation "+" "put" [("key", "K"); ("entry", "Map<K:V>")] "bool")
  = ("+", "put", [("key", "K"); ("entry", "Map<K:V>")], "bool").
Proof.
  apply (parse_operation_format "+" "put" [("key", "K"); ("entry", "Map<K:V>")] "bool");
    reflexivity.
Defined.
